(** * Incremental structure-from-motion pipeline (3dReconstruction.ipynb)

    A shallow embedding of the notebook's functions and cells, followed by
    the properties established about them.

    Conventions of the embedding.
    - numpy arrays of points are lists of tuples: an (N,2) array is a list
      of pairs, an (N,3) array a list of triples.  A 4xN (or 2xN) array
      is held as the list of its N columns, so the layout transposes
      [.T] of the source are the identity on the embedded value.
    - the empty array that [np.array] builds of an empty Python list is
      of shape (0,) and of float dtype, whatever the rows would have
      been: where the source's behaviour depends on it, the embedding
      says so at the place ([fancy_index], [broadcast_rows],
      [vstack_colors]).
    - the 3x3 and 3x4 matrices (intrinsics, transforms, projection
      matrices) are tuples of rows.
    - the element type of the float arrays is a parameter ([Dtype]) with
      two instances: IEEE binary64 ([float], what numpy computes with) and
      the real numbers ([R], the idealised arithmetic in which the metric
      statements are made).
    - Python exceptions are the left summand of [res]; [print] appends to
      an explicit standard output.
    - OpenCV is an interface ([CV]): its functions are not code of the
      notebook. *)

From Stdlib Require Import List ZArith Lia Bool String Ascii.
From Stdlib Require Import Reals Lra.
From Stdlib Require Import Floats.
From Stdlib Require Import DecimalString DecimalNat.
Import ListNotations.

Set Implicit Arguments.

(* ================================================================== *)
(** * Part I: the embedding                                             *)
(* ================================================================== *)

(** ** Array element types *)

Class Dtype (F : Type) : Type := {
  fadd : F -> F -> F;
  fsub : F -> F -> F;
  fmul : F -> F -> F;
  fdiv : F -> F -> F;
  fsqrt : F -> F;
  fltb : F -> F -> bool;       (* a < b  *)
  feqb : F -> F -> bool;       (* a == b *)
  of_Z : Z -> F;               (* int -> float conversion *)
  to_int : F -> Z              (* int(x): truncation towards zero *)
}.

Declare Scope dtype_scope.
Delimit Scope dtype_scope with D.
Notation "a + b" := (fadd a b) : dtype_scope.
Notation "a - b" := (fsub a b) : dtype_scope.
Notation "a * b" := (fmul a b) : dtype_scope.
Notation "a / b" := (fdiv a b) : dtype_scope.

(** IEEE binary64. [of_Z] goes through the 63-bit primitive integers and
    is exact for every integer the pipeline converts (small constants,
    lengths, bytes). *)
Definition float_of_Z (z : Z) : float :=
  match z with
  | Z0 => PrimFloat.zero
  | Zpos _ => PrimFloat.of_uint63 (Uint63.of_Z z)
  | Zneg p => PrimFloat.opp (PrimFloat.of_uint63 (Uint63.of_Z (Zpos p)))
  end.

Definition float_to_int (x : float) : Z :=
  match Prim2SF x with
  | S754_finite s m e =>
      let v := match e with
               | Z0 => Zpos m
               | Zpos k => Z.shiftl (Zpos m) (Zpos k)
               | Zneg k => Z.shiftr (Zpos m) (Zpos k)
               end in
      if s then Z.opp v else v
  | _ => 0%Z
  end.

#[export] Instance float64 : Dtype float := {
  fadd := PrimFloat.add;
  fsub := PrimFloat.sub;
  fmul := PrimFloat.mul;
  fdiv := PrimFloat.div;
  fsqrt := PrimFloat.sqrt;
  fltb := PrimFloat.ltb;
  feqb := PrimFloat.eqb;
  of_Z := float_of_Z;
  to_int := float_to_int
}.

(** Real numbers: the arithmetic without rounding, NaN or infinities. *)
Definition R_to_int (x : R) : Z :=
  if Rle_dec 0 x then Int_part x else Z.opp (Int_part (Ropp x)).

#[export] Instance real : Dtype R := {
  fadd := Rplus;
  fsub := Rminus;
  fmul := Rmult;
  fdiv := Rdiv;
  fsqrt := R_sqrt.sqrt;
  fltb := fun a b => if Rlt_dec a b then true else false;
  feqb := fun a b => if Req_dec_T a b then true else false;
  of_Z := IZR;
  to_int := R_to_int
}.

(** Neither NaN nor an infinity. *)
Definition is_finite (x : float) : bool :=
  match Prim2SF x with
  | S754_zero _ | S754_finite _ _ _ => true
  | S754_infinity _ | S754_nan => false
  end.

(** ** Exceptions, fallible results and standard output *)

Inductive exn : Type :=
| TypeError          (* unpacking or subscripting None *)
| IndexError         (* index out of range, or an index array of float dtype *)
| ValueError         (* arrays of incompatible shapes *)
| ZeroDivisionError
| CvError.           (* cv2.error raised inside OpenCV *)

Definition res (A : Type) : Type := (exn + A)%type.

Definition rret {A} (a : A) : res A := inr a.
Definition rbind {A B} (m : res A) (f : A -> res B) : res B :=
  match m with
  | inl e => inl e
  | inr a => f a
  end.

Declare Scope res_scope.
Delimit Scope res_scope with res.
Notation "x <- m ;; k" := (rbind m (fun x => k))
  (at level 61, m at next level, right associativity) : res_scope.
Notation "' p <- m ;; k" := (rbind m (fun x => match x with p => k end))
  (at level 61, p pattern, m at next level, right associativity) : res_scope.

(** One argument of a [print] call. *)
Inductive printed (F : Type) : Type :=
| PStr (s : string)
| PNum (x : F)
| PShape (rows cols : nat).
Arguments PStr {F} s.
Arguments PNum {F} x.
Arguments PShape {F} rows cols.

(** Standard output: the argument lists of the [print] calls, oldest first. *)
Definition stdout (F : Type) : Type := list (list (printed F)).

(** Computations that may print and may raise. *)
Definition M (F A : Type) : Type := stdout F -> res A * stdout F.

Definition mret {F A} (a : A) : M F A := fun out => (inr a, out).
Definition mbind {F A B} (m : M F A) (f : A -> M F B) : M F B :=
  fun out =>
    match m out with
    | (inl e, out') => (inl e, out')
    | (inr a, out') => f a out'
    end.
Definition mraise {F A} (e : exn) : M F A := fun out => (inl e, out).
Definition print {F} (args : list (printed F)) : M F unit :=
  fun out => (inr tt, out ++ [args]).
Definition lift {F A} (r : res A) : M F A := fun out => (r, out).

Declare Scope M_scope.
Delimit Scope M_scope with M.
Notation "x <- m ;; k" := (mbind m (fun x => k))
  (at level 61, m at next level, right associativity) : M_scope.
Notation "' p <- m ;; k" := (mbind m (fun x => match x with p => k end))
  (at level 61, p pattern, m at next level, right associativity) : M_scope.
Notation "m ;;; k" := (mbind m (fun _ => k))
  (at level 61, right associativity) : M_scope.

(** ** numpy indexing *)

(** [arr[idx]] with an integer index array: the rows in the order of the
    indices; an index past the end raises. *)
Fixpoint take_rows {A} (arr : list A) (idx : list nat) : res (list A) :=
  match idx with
  | [] => inr []
  | i :: rest =>
      match nth_error arr i with
      | None => inl IndexError
      | Some a =>
          match take_rows arr rest with
          | inl e => inl e
          | inr l => inr (a :: l)
          end
      end
  end.

(** [arr[np.array(idx)]] where [idx] was built as a Python list:
    [np.array([])] has dtype float64 and is refused as an index. *)
Definition fancy_index {A} (arr : list A) (idx : list nat) : res (list A) :=
  match idx with
  | [] => inl IndexError
  | _ => take_rows arr idx
  end.

(** [arr[mask]] with a boolean mask over the rows: the lengths must agree. *)
Fixpoint bool_index {A} (arr : list A) (mask : list bool) : res (list A) :=
  match arr, mask with
  | [], [] => inr []
  | a :: arr', b :: mask' =>
      match bool_index arr' mask' with
      | inl e => inl e
      | inr l => inr (if b then a :: l else l)
      end
  | _, _ => inl IndexError
  end.

(** [lst[i]] on a Python list. *)
Definition list_get {A} (l : list A) (i : nat) : res A :=
  match nth_error l i with
  | Some a => inr a
  | None => inl IndexError
  end.

(** ** Points, matrices and the OpenCV interface *)

Definition pt2 (F : Type) : Type := (F * F)%type.
Definition vec3 (F : Type) : Type := (F * F * F)%type.
Definition vec4 (F : Type) : Type := (F * F * F * F)%type.
Definition mat33 (F : Type) : Type := (vec3 F * vec3 F * vec3 F)%type.
Definition mat34 (F : Type) : Type := (vec4 F * vec4 F * vec4 F)%type.

(** A pixel sample [img[r, c]]: three 8-bit channels. *)
Definition color : Type := (Z * Z * Z)%type.

(** [cv.DMatch]: the fields the notebook reads. *)
Record DMatch (F : Type) : Type := {
  queryIdx : nat;
  trainIdx : nat;
  distance : F
}.

(** The OpenCV calls of the notebook.  Key points are held by their [.pt]
    coordinates.  [cv.Rodrigues] is used in both directions: [Rodrigues]
    maps a rotation vector to a matrix, [RodriguesMat] a matrix to a
    vector.  [solvePnPRansac] returns (retval, rvec, tvec, inliers), where
    [inliers] is [None] when it was left unset. *)
Class CV (F : Type) : Type := {
  image : Type;
  descriptors : Type;
  imread : string -> option image;
  pixel : image -> Z -> Z -> res color;
  detectAndCompute : image -> res (list (pt2 F) * descriptors);
  knnMatch : descriptors -> descriptors -> res (list (DMatch F * DMatch F));
  findEssentialMat :
    list (pt2 F) -> list (pt2 F) -> mat33 F -> res (mat33 F * list Z);
  recoverPose :
    mat33 F -> list (pt2 F) -> list (pt2 F) -> mat33 F ->
    res (mat33 F * vec3 F * list Z);
  triangulatePoints :
    mat34 F -> mat34 F -> list (pt2 F) -> list (pt2 F) -> res (list (vec4 F));
  solvePnPRansac :
    list (vec3 F) -> list (pt2 F) -> mat33 F ->
    res (bool * vec3 F * vec3 F * option (list nat));
  Rodrigues : vec3 F -> res (mat33 F);
  RodriguesMat : mat33 F -> res (vec3 F);
  convertPointsFromHomogeneous : list (vec4 F) -> res (list (vec3 F));
  projectPoints :
    list (vec3 F) -> vec3 F -> vec3 F -> mat33 F -> res (list (pt2 F))
}.

Section Pipeline.

Context {F : Type} {D : Dtype F} {cv : CV F}.

Local Open Scope dtype_scope.

(** A decimal literal [n/d] of the source. *)
Definition dec (n d : Z) : F := of_Z n / of_Z d.

(** ** Cell 1: intrinsics, image list, [get_matches] *)

Definition K : mat33 F :=
  ((dec 127095 100, dec 32 100000, dec 51857 100),
   (of_Z 0,         dec 127275 100, dec 39343 100),
   (of_Z 0,         of_Z 0,         of_Z 1)).

(** [f'{i:04d}'] *)
Definition pad4 (i : nat) : string :=
  let s := NilEmpty.string_of_uint (Nat.to_uint i) in
  (match String.length s with
   | 1 => "000" | 2 => "00" | 3 => "0" | _ => ""
   end ++ s)%string.

Definition image_paths : list string :=
  map (fun i => ("./Assets/" ++ pad4 i ++ ".jpg")%string) (seq 0 8).

(** Lowe's ratio test of the first loop. *)
Definition matchesMask (matches : list (DMatch F * DMatch F)) : list (Z * Z) :=
  map (fun mn => if fltb (distance (fst mn)) (dec 7 10 * distance (snd mn))
                 then (1, 0)%Z else (0, 0)%Z) matches.

Definition matched : Type :=
  (list (pt2 F) * list (pt2 F) * list color * list color)%type.

(** The second loop: the good matches, in scan order, with their colours. *)
Fixpoint collect (img1 img2 : image) (kp1 kp2 : list (pt2 F))
    (matches : list ((DMatch F * DMatch F) * (Z * Z))) (acc : matched)
    : res matched :=
  match matches with
  | [] => inr acc
  | ((m, _), mask_j) :: rest =>
      if (fst mask_j =? 1)%Z then
        (point_a <- list_get kp1 (queryIdx m) ;;
         point_b <- list_get kp2 (trainIdx m) ;;
         color_a <- pixel img1 (to_int (snd point_a)) (to_int (fst point_a)) ;;
         color_b <- pixel img2 (to_int (snd point_b)) (to_int (fst point_b)) ;;
         let '(pa, pb, ca, cb) := acc in
         collect img1 img2 kp1 kp2 rest
           (pa ++ [point_a], pb ++ [point_b], ca ++ [color_a], cb ++ [color_b]))%res
      else collect img1 img2 kp1 kp2 rest acc
  end.

(** Returns [None] (after printing) when an image could not be read. *)
Definition get_matches (path1 path2 : string) : M F (option matched) :=
  match imread path1, imread path2 with
  | Some img1, Some img2 =>
      lift ('(kp1, des1) <- detectAndCompute img1 ;;
            '(kp2, des2) <- detectAndCompute img2 ;;
            matches <- knnMatch des1 des2 ;;
            r <- collect img1 img2 kp1 kp2
                   (combine matches (matchesMask matches)) ([], [], [], []) ;;
            inr (Some r))%res
  | _, _ =>
      (print [PStr "Error reading images"] ;;; mret None)%M
  end.

(** [a, b, c, d = get_matches(...)]: unpacking [None] raises. *)
Definition unpack {A} (r : option A) : M F A :=
  match r with
  | Some a => mret a
  | None => mraise TypeError
  end.

(** ** Cell 7: [triangulation]

    The parameters are named for points but receive the projection
    matrices (and conversely); the call to OpenCV puts them back in
    order.  Returns the two point arrays transposed and the cloud with
    every column divided by its 4th coordinate. *)
Definition normalise (p : vec4 F) : vec4 F :=
  let '(x, y, z, w) := p in (x / w, y / w, z / w, w / w).

Definition triangulation (point_2d_1 point_2d_2 : mat34 F)
    (projection_matrix_1 projection_matrix_2 : list (pt2 F))
    : res (list (pt2 F) * list (pt2 F) * list (vec4 F)) :=
  (pt_cloud <- triangulatePoints point_2d_1 point_2d_2
                 projection_matrix_1 projection_matrix_2 ;;
   inr (projection_matrix_1, projection_matrix_2, map normalise pt_cloud))%res.

(** ** Cell 9: [PnP]

    [rot_vector] is any array pruned in lockstep with the points. *)
Definition PnP {A} (obj_point : list (vec3 F)) (image_point : list (pt2 F))
    (K : mat33 F) (rot_vector : list A)
    : res (mat33 F * vec3 F * list (pt2 F) * list (vec3 F) * list A) :=
  ('(_, rot_vector_calc, tran_vector, inlier) <-
       solvePnPRansac obj_point image_point K ;;
   rot_matrix <- Rodrigues rot_vector_calc ;;
   match inlier with
   | Some idx =>
       image_point' <- take_rows image_point idx ;;
       obj_point' <- take_rows obj_point idx ;;
       rot_vector' <- take_rows rot_vector idx ;;
       inr (rot_matrix, tran_vector, image_point', obj_point', rot_vector')
   | None =>
       inr (rot_matrix, tran_vector, image_point, obj_point, rot_vector)
   end)%res.

(** ** Cell 11: [reprojection_error] *)

(** [transform_matrix[:3, :3]] and [transform_matrix[:3, 3]] *)
Definition sub33 (m : mat34 F) : mat33 F :=
  let '((a0, a1, a2, _), (b0, b1, b2, _), (c0, c1, c2, _)) := m in
  ((a0, a1, a2), (b0, b1, b2), (c0, c1, c2)).
Definition col3 (m : mat34 F) : vec3 F :=
  let '((_, _, _, a3), (_, _, _, b3), (_, _, _, c3)) := m in (a3, b3, c3).

(** [cv.norm(a, b, cv.NORM_L2)]: the square root of the sum, over every
    entry of the two arrays, of the squared difference. *)
Definition sq_diff (acc : F) (pq : pt2 F * pt2 F) : F :=
  let '((u, v), (u', v')) := pq in
  acc + (u - u') * (u - u') + (v - v') * (v - v').

Definition norm_L2 (a b : list (pt2 F)) : res F :=
  if (List.length a =? List.length b)%nat
  then inr (fsqrt (fold_left sq_diff (combine a b) (of_Z 0)))
  else inl CvError.

(** The [homogenity] flag together with the array it announces:
    0 with an (N,3) array, 1 with a 4xN array. *)
Inductive obj_points_arg : Type :=
| Cartesian (pts : list (vec3 F))
| Homogeneous (pts : list (vec4 F)).

(** [if homogenity == 1:
       obj_points = cv.convertPointsFromHomogeneous(obj_points.T)] *)
Definition cartesian_points (obj_points : obj_points_arg)
    : res (list (vec3 F)) :=
  match obj_points with
  | Cartesian pts => inr pts
  | Homogeneous pts => convertPointsFromHomogeneous pts
  end.

Definition reprojection_error (obj_points : obj_points_arg)
    (image_points : list (pt2 F)) (transform_matrix : mat34 F) (K : mat33 F)
    : res (F * list (vec3 F)) :=
  let rot_matrix := sub33 transform_matrix in
  let tran_vector := col3 transform_matrix in
  (rot_vector <- RodriguesMat rot_matrix ;;
   obj_points' <- cartesian_points obj_points ;;
   image_points_calc <- projectPoints obj_points' rot_vector tran_vector K ;;
   total_error <- norm_L2 image_points_calc image_points ;;
   match List.length image_points_calc with
   | O => inl ZeroDivisionError
   | S _ => inr (total_error / of_Z (Z.of_nat (List.length image_points_calc)),
                 obj_points')
   end)%res.

(** ** Cell 13: [common_points] *)

(** [np.where(image_points_2 == p)[0]]: the row [p] is broadcast against
    the (M,2) array and compared entry by entry; [np.where] lists, in
    row-major order, the row index of every true entry. *)
Fixpoint where_rows (image_points_2 : list (pt2 F)) (p : pt2 F) (j : nat)
    : list nat :=
  match image_points_2 with
  | [] => []
  | q :: rest =>
      (if feqb (fst q) (fst p) then [j] else []) ++
      (if feqb (snd q) (snd p) then [j] else []) ++
      where_rows rest p (S j)
  end.

(** The [for i in range(image_points_1.shape[0])] loop, from row [i] on. *)
Fixpoint common_loop (image_points_1 image_points_2 : list (pt2 F)) (i : nat)
    (cm_points_1 cm_points_2 : list nat) : list nat * list nat :=
  match image_points_1 with
  | [] => (cm_points_1, cm_points_2)
  | p :: rest =>
      match where_rows image_points_2 p 0 with
      | [] => common_loop rest image_points_2 (S i) cm_points_1 cm_points_2
      | a00 :: _ =>
          common_loop rest image_points_2 (S i)
            (cm_points_1 ++ [i]) (cm_points_2 ++ [a00])
      end
  end.

(** [m = np.ma.array(arr, mask=False); m.mask[idx] = True;
    m.compressed().reshape(-1, 2)]: the rows whose index is not in [idx];
    an index past the end raises. *)
Definition mask_rows {A} (arr : list A) (idx : list nat) : res (list A) :=
  if forallb (fun j => (j <? List.length arr)%nat) idx
  then inr (map snd
              (filter (fun ir => negb (existsb (Nat.eqb (fst ir)) idx))
                      (combine (seq 0 (List.length arr)) arr)))
  else inl IndexError.

Definition common_points (image_points_1 image_points_2 image_points_3
    : list (pt2 F))
    : M F (list nat * list nat * list (pt2 F) * list (pt2 F)) :=
  let '(cm_points_1, cm_points_2) :=
    common_loop image_points_1 image_points_2 0 [] [] in
  (mask_array_1 <- lift (mask_rows image_points_2 cm_points_2) ;;
   mask_array_2 <- lift (mask_rows image_points_3 cm_points_2) ;;
   print [PStr " Shape New Array";
          PShape (List.length mask_array_1) 2;
          PShape (List.length mask_array_2) 2] ;;;
   mret (cm_points_1, cm_points_2, mask_array_1, mask_array_2))%M.

(** ** Cells 3, 5 and 15: two-view initialisation *)

Definition dot3 (a b : vec3 F) : F :=
  let '(a0, a1, a2) := a in
  let '(b0, b1, b2) := b in
  a0 * b0 + a1 * b1 + a2 * b2.

(** [np.matmul] at the three shapes used. *)
Definition matvec (m : mat33 F) (v : vec3 F) : vec3 F :=
  let '(r0, r1, r2) := m in (dot3 r0 v, dot3 r1 v, dot3 r2 v).

Definition cols33 (m : mat33 F) : vec3 F * vec3 F * vec3 F :=
  let '((a0, a1, a2), (b0, b1, b2), (c0, c1, c2)) := m in
  ((a0, b0, c0), (a1, b1, c1), (a2, b2, c2)).

Definition matmul33 (m n : mat33 F) : mat33 F :=
  let '(c0, c1, c2) := cols33 n in
  let row r := (dot3 r c0, dot3 r c1, dot3 r c2) in
  let '(r0, r1, r2) := m in (row r0, row r1, row r2).

Definition matmul (m : mat33 F) (n : mat34 F) : mat34 F :=
  let '(c0, c1, c2) := cols33 (sub33 n) in
  let c3 := col3 n in
  let row r := (dot3 r c0, dot3 r c1, dot3 r c2, dot3 r c3) in
  let '(r0, r1, r2) := m in (row r0, row r1, row r2).

(** [np.hstack((rot, tran))], also the two slice assignments into the
    3x4 [transform_matrix_1]. *)
Definition hstack (m : mat33 F) (t : vec3 F) : mat34 F :=
  let '((a0, a1, a2), (b0, b1, b2), (c0, c1, c2)) := m in
  let '(t0, t1, t2) := t in
  ((a0, a1, a2, t0), (b0, b1, b2, t1), (c0, c1, c2, t2)).

Definition vadd (a b : vec3 F) : vec3 F :=
  let '(a0, a1, a2) := a in
  let '(b0, b1, b2) := b in (a0 + b0, a1 + b1, a2 + b2).

Definition transform_matrix_0 : mat34 F :=
  ((of_Z 1, of_Z 0, of_Z 0, of_Z 0),
   (of_Z 0, of_Z 1, of_Z 0, of_Z 0),
   (of_Z 0, of_Z 0, of_Z 1, of_Z 0)).

Record two_view : Type := {
  tv_feature_0 : list (pt2 F);
  tv_feature_1 : list (pt2 F);
  tv_color_a : list color;
  tv_color_b : list color;
  tv_rot_matrix : mat33 F;
  tv_tran_matrix : vec3 F;
  tv_transform_matrix_1 : mat34 F;
  tv_pose_0 : mat34 F;
  tv_pose_1 : mat34 F;
  tv_points_3d : list (vec3 F)
}.

Definition initialise (image_paths : list string) (K : mat33 F)
    : M F two_view :=
  let pose_0 := matmul K transform_matrix_0 in
  (path0 <- lift (list_get image_paths 0) ;;
   path1 <- lift (list_get image_paths 1) ;;
   r <- get_matches path0 path1 ;;
   '(feature_0, feature_1, color_a, color_b) <- unpack r ;;
   '(essential_matrix, em_mask) <-
       lift (findEssentialMat feature_0 feature_1 K) ;;
   let keep := map (Z.eqb 1) em_mask in
   feature_0 <- lift (bool_index feature_0 keep) ;;
   feature_1 <- lift (bool_index feature_1 keep) ;;
   color_a <- lift (bool_index color_a keep) ;;
   color_b <- lift (bool_index color_b keep) ;;
   '(rot_matrix, tran_matrix, em_mask) <-
       lift (recoverPose essential_matrix feature_0 feature_1 K) ;;
   let keep := map (Z.ltb 0) em_mask in
   feature_0 <- lift (bool_index feature_0 keep) ;;
   feature_1 <- lift (bool_index feature_1 keep) ;;
   color_a <- lift (bool_index color_a keep) ;;
   color_b <- lift (bool_index color_b keep) ;;
   let transform_matrix_1 :=
     hstack (matmul33 rot_matrix (sub33 transform_matrix_0))
            (vadd (col3 transform_matrix_0)
                  (matvec (sub33 transform_matrix_0) tran_matrix)) in
   let pose_1 := matmul K transform_matrix_1 in
   '(_, _, points_3d) <-
       lift (triangulation pose_0 pose_1 feature_0 feature_1) ;;
   points_3d <- lift (convertPointsFromHomogeneous points_3d) ;;
   mret {| tv_feature_0 := feature_0; tv_feature_1 := feature_1;
           tv_color_a := color_a; tv_color_b := color_b;
           tv_rot_matrix := rot_matrix; tv_tran_matrix := tran_matrix;
           tv_transform_matrix_1 := transform_matrix_1;
           tv_pose_0 := pose_0; tv_pose_1 := pose_1;
           tv_points_3d := points_3d |})%M.

(** ** Cell 17: the control loop *)

Record state : Type := {
  pose_0 : mat34 F;
  pose_1 : mat34 F;
  pose_array : list F;
  total_points : list (vec3 F);
  total_colors : list color
}.

Definition ravel3 (v : vec3 F) : list F := let '(a, b, c) := v in [a; b; c].
Definition ravel4 (v : vec4 F) : list F :=
  let '(a, b, c, d) := v in [a; b; c; d].
Definition ravel33 (m : mat33 F) : list F :=
  let '(r0, r1, r2) := m in ravel3 r0 ++ ravel3 r1 ++ ravel3 r2.
Definition ravel34 (m : mat34 F) : list F :=
  let '(r0, r1, r2) := m in ravel4 r0 ++ ravel4 r1 ++ ravel4 r2.

(** The assignments before the loop. *)
Definition initial_state (K : mat33 F) (tv : two_view) : state :=
  {| pose_0 := tv_pose_0 tv;
     pose_1 := tv_pose_1 tv;
     pose_array := ravel33 K;
     total_points := tv_points_3d tv;
     total_colors := tv_color_b tv |}.

(** [[f(l) for l in ls]] *)
Fixpoint map_res {A B} (f : A -> res B) (ls : list A) : res (list B) :=
  match ls with
  | [] => inr []
  | l :: rest =>
      (b <- f l ;; bs <- map_res f rest ;; inr (b :: bs))%res
  end.

(** [np.vstack((total_colors, color_vector))]: an empty [color_vector]
    is an array of shape (0,) and cannot be stacked under (N,3). *)
Definition vstack_colors (total color_vector : list color) : res (list color) :=
  match color_vector with
  | [] => inl ValueError
  | _ => inr (total ++ color_vector)
  end.

(** The arrays [get_matches] returns are [np.array] of Python lists: with
    no good match they are of shape (0,), not (0,2).  Given such an array
    as its second argument, [common_points] fails in the first turn of
    its loop, where numpy cannot broadcast
    [image_points_2 == image_points_1[i, :]] (shapes (0,) and (2,)); with
    no row in [image_points_1] the comparison is never made. *)
Definition broadcast_rows (image_points_1 image_points_2 : list (pt2 F))
    : res unit :=
  match image_points_1, image_points_2 with
  | _ :: _, [] => inl ValueError
  | _, _ => inr tt
  end.

Definition loop_body (image_paths : list string) (K : mat33 F)
    (st : state) (i : nat) : M F state :=
  (path_1 <- lift (list_get image_paths (i + 1)%nat) ;;
   let image := imread path_1 in
   path_0 <- lift (list_get image_paths i) ;;
   r <- get_matches path_0 path_1 ;;
   '(feature_0, feature_1, _, _) <- unpack r ;;
   '(feature_0, feature_1, points_3d) <-
       lift (triangulation (pose_0 st) (pose_1 st) feature_0 feature_1) ;;
   path_2 <- lift (list_get image_paths (i + 2)%nat) ;;
   r <- get_matches path_1 path_2 ;;
   '(features_cur, features_2, _, _) <- unpack r ;;
   points_3d <- lift (convertPointsFromHomogeneous points_3d) ;;
   _ <- lift (broadcast_rows feature_1 features_cur) ;;
   '(cm_points_0, cm_points_1, cm_mask_0, cm_mask_1) <-
       common_points feature_1 features_cur features_2 ;;
   cm_points_2 <- lift (fancy_index features_2 cm_points_1) ;;
   cm_points_cur <- lift (fancy_index features_cur cm_points_1) ;;
   obj_point <- lift (fancy_index points_3d cm_points_0) ;;
   '(rot_matrix, tran_matrix, cm_points_2, points_3d, cm_points_cur) <-
       lift (PnP obj_point cm_points_2 K cm_points_cur) ;;
   let transform_matrix_1 := hstack rot_matrix tran_matrix in
   let pose_2 := matmul K transform_matrix_1 in
   '(error, points_3d) <-
       lift (reprojection_error (Cartesian points_3d) cm_points_2
               transform_matrix_1 K) ;;
   '(cm_mask_0, cm_mask_1, points_3d) <-
       lift (triangulation (pose_1 st) pose_2 cm_mask_0 cm_mask_1) ;;
   '(error, points_3d) <-
       lift (reprojection_error (Homogeneous points_3d) cm_mask_1
               transform_matrix_1 K) ;;
   print [PStr "Reprojection Error: "; PNum error] ;;;
   let pose_array' := pose_array st ++ ravel34 pose_2 in
   let total_points' := total_points st ++ points_3d in
   color_vector <-
       lift (map_res (fun l => match image with
                               | Some img =>
                                   pixel img (to_int (snd l)) (to_int (fst l))
                               | None => inl TypeError
                               end)
                     cm_mask_1) ;;
   total_colors' <- lift (vstack_colors (total_colors st) color_vector) ;;
   mret {| pose_0 := pose_1 st;
           pose_1 := pose_2;
           pose_array := pose_array';
           total_points := total_points';
           total_colors := total_colors' |})%M.

(** [for i in idx: body] *)
Fixpoint for_loop (body : state -> nat -> M F state) (idx : list nat)
    (st : state) : M F state :=
  match idx with
  | [] => mret st
  | i :: rest => (st' <- body st i ;; for_loop body rest st')%M
  end.

(** The state after the first [n] iterations of the loop. *)
Definition iterate (image_paths : list string) (K : mat33 F) (n : nat)
    (st : state) : M F state :=
  for_loop (loop_body image_paths K) (seq 0 n) st.

(** The whole of cell 17: [range(len(image_paths) - 2)]. *)
Definition control_loop (image_paths : list string) (K : mat33 F)
    (st : state) : M F state :=
  iterate image_paths K (List.length image_paths - 2) st.

(** ** Cell 19: [to_ply] *)

(** int64 product, then [.astype(np.uint8)]. *)
Definition wrap_int64 (z : Z) : Z :=
  ((z + 2 ^ 63) mod 2 ^ 64 - 2 ^ 63)%Z.
Definition astype_uint8 (z : Z) : Z := (z mod 256)%Z.
Definition out_color (c : Z) : Z := astype_uint8 (wrap_int64 (c * 255)).

(** A row of [verts]: x, y, z and the three colour columns, which
    [np.hstack] converts to the float dtype. *)
Definition vert : Type := (vec3 F * vec3 F)%type.

Definition hstack_row (pc : vec3 F * color) : vert :=
  let '(c0, c1, c2) := snd pc in (fst pc, (of_Z c0, of_Z c1, of_Z c2)).

Definition hstack_verts (out_points : list (vec3 F)) (out_colors : list color)
    : res (list vert) :=
  if (List.length out_points =? List.length out_colors)%nat
  then inr (map hstack_row (combine out_points out_colors))
  else inl ValueError.

(** [np.mean] of a 1-D array. *)
Definition np_mean (l : list F) : F :=
  fold_left fadd l (of_Z 0) / of_Z (Z.of_nat (List.length l)).

(** [np.mean(verts[:, :3], axis=0)] *)
Definition mean_axis0 (pts : list (vec3 F)) : vec3 F :=
  (np_mean (map (fun p => fst (fst p)) pts),
   np_mean (map (fun p => snd (fst p)) pts),
   np_mean (map snd pts)).

Definition centre (mean : vec3 F) (p : vec3 F) : vec3 F :=
  let '(x, y, z) := p in
  let '(mx, my, mz) := mean in (x - mx, y - my, z - mz).

Definition norm3 (p : vec3 F) : F :=
  let '(x, y, z) := p in fsqrt (x * x + y * y + z * z).

(** [np.where(cond)[0]] on a 1-D boolean array, from index [i] on. *)
Fixpoint np_where (cond : list bool) (i : nat) : list nat :=
  match cond with
  | [] => []
  | b :: rest => if b then i :: np_where rest (S i) else np_where rest (S i)
  end.

(** [dist] of the source: the distance of every vertex from the mean. *)
Definition distances (verts : list vert) : list F :=
  let mean := mean_axis0 (map fst verts) in
  map (fun v => norm3 (centre mean (fst v))) verts.

(** [point_cloud.reshape(-1, 3) * 200] *)
Definition scale200 (p : vec3 F) : vec3 F :=
  let '(x, y, z) := p in (x * of_Z 200, y * of_Z 200, z * of_Z 200).
Definition out_points (point_cloud : list (vec3 F)) : list (vec3 F) :=
  map scale200 point_cloud.

(** [(colors.reshape(-1, 3) * 255).astype(np.uint8)] *)
Definition out_pixel (c : color) : color :=
  let '(c0, c1, c2) := c in (out_color c0, out_color c1, out_color c2).
Definition out_colors (colors : list color) : list color :=
  map out_pixel colors.

(** [dist < np.mean(dist) + 300] *)
Definition within (dist : list F) : list bool :=
  map (fun d => fltb d (np_mean dist + of_Z 300)) dist.

(** The rows of [verts] after [verts = verts[indx]]. *)
Definition retained (point_cloud : list (vec3 F)) (colors : list color)
    : res (list vert) :=
  (verts <- hstack_verts (out_points point_cloud) (out_colors colors) ;;
   let dist := distances verts in
   let indx := np_where (within dist) 0 in
   take_rows verts indx)%res.

Definition newline : string := String (ascii_of_nat 10) EmptyString.

(** [ply_header % dict(vert_num=n)]; the literal is indented with the
    function body, and ends with the indentation of its closing quotes. *)
Definition ply_header (vert_num : nat) : string :=
  ("ply" ++ newline ++
   "    format ascii 1.0" ++ newline ++
   "    element vertex " ++ NilEmpty.string_of_uint (Nat.to_uint vert_num)
     ++ newline ++
   "    property float x" ++ newline ++
   "    property float y" ++ newline ++
   "    property float z" ++ newline ++
   "    property uchar red" ++ newline ++
   "    property uchar green" ++ newline ++
   "    property uchar blue" ++ newline ++
   "    end_header" ++ newline ++
   "    ")%string.

(** One line of [np.savetxt(f, verts, '%f %f %f %d %d %d')]: the values the
    six conversions render; [%d] truncates its float argument. *)
Definition ply_line : Type := (vec3 F * (Z * Z * Z))%type.

Definition savetxt_row (v : vert) : ply_line :=
  let '(c0, c1, c2) := snd v in (fst v, (to_int c0, to_int c1, to_int c2)).

(** What is written to the file: the header text, then one line per row. *)
Record ply_file : Type := {
  file_name : string;
  header : string;
  data_lines : list ply_line
}.

(** [os.path.join(a, b)] for a relative [b]. *)
Definition path_join (a b : string) : string :=
  match a with
  | EmptyString => b
  | _ => if String.eqb (substring (String.length a - 1) 1 a) "/"
         then (a ++ b)%string else (a ++ "/" ++ b)%string
  end.

Definition to_ply (path : string) (point_cloud : list (vec3 F))
    (colors : list color) : res ply_file :=
  (verts <- retained point_cloud colors ;;
   let output_dir := path_join path "res" in
   let output_file := path_join output_dir "point_cloud.ply" in
   inr {| file_name := output_file;
          header := ply_header (List.length verts);
          data_lines := map savetxt_row verts |})%res.

End Pipeline.

(** ** A scripted OpenCV

    A stand-in for OpenCV on which the pipeline can be run: every image
    whose path [readable] accepts decodes (to its own path), carries the
    same three key points and the same colour everywhere, its first two
    key points are matched (the second to the third key point of the
    other image), every correspondence is an inlier of the two-view
    stage and the first one of pose registration, the homogeneous
    solution of a correspondence is (x, y, 1, [w]) and the projection
    drops the depth. *)
Section Scripted.

Context {F : Type} {D : Dtype F}.
Variable readable : string -> bool.
Variable w : F.

Definition scripted_keypoints : list (pt2 F) :=
  [(of_Z 1, of_Z 1); (of_Z 2, of_Z 5); (of_Z 3, of_Z 7)].

Definition scripted_matches : list (DMatch F * DMatch F) :=
  [({| queryIdx := 0; trainIdx := 0; distance := of_Z 1 |},
    {| queryIdx := 0; trainIdx := 1; distance := of_Z 2 |});
   ({| queryIdx := 1; trainIdx := 2; distance := of_Z 1 |},
    {| queryIdx := 1; trainIdx := 1; distance := of_Z 2 |})].

Definition eye3 : mat33 F :=
  ((of_Z 1, of_Z 0, of_Z 0), (of_Z 0, of_Z 1, of_Z 0), (of_Z 0, of_Z 0, of_Z 1)).

Definition scripted : CV F := {|
  image := string;
  descriptors := unit;
  imread := fun path => if readable path then Some path else None;
  pixel := fun _ _ _ => inr (10, 20, 30)%Z;
  detectAndCompute := fun _ => inr (scripted_keypoints, tt);
  knnMatch := fun _ _ => inr scripted_matches;
  findEssentialMat := fun a _ _ => inr (eye3, map (fun _ => 1%Z) a);
  recoverPose := fun _ a _ _ =>
    inr (eye3, (of_Z 0, of_Z 0, of_Z 1), map (fun _ => 255%Z) a);
  triangulatePoints := fun _ _ a b =>
    inr (map (fun ab : pt2 F * pt2 F =>
                (fst (fst ab), snd (fst ab), of_Z 1, w))
             (combine a b));
  solvePnPRansac := fun _ _ _ =>
    inr (true, (of_Z 0, of_Z 0, of_Z 0), (of_Z 0, of_Z 0, of_Z 1), Some [0%nat]);
  Rodrigues := fun _ => inr eye3;
  RodriguesMat := fun _ => inr (of_Z 0, of_Z 0, of_Z 0);
  convertPointsFromHomogeneous := fun pts =>
    inr (map (fun p : vec4 F => fst p) pts);
  projectPoints := fun pts _ _ _ =>
    inr (map (fun p : vec3 F => fst p) pts)
|}.

End Scripted.

(** A state from which the loop is run on the scripted OpenCV. *)
Definition scripted_start : state (F := float) :=
  {| pose_0 := matmul K transform_matrix_0;
     pose_1 := matmul K transform_matrix_0;
     pose_array := ravel33 K;
     total_points := [(1, 1, 1)%float; (2, 5, 1)%float];
     total_colors := [(10, 20, 30)%Z; (10, 20, 30)%Z] |}.

(** ** The statements of the specification, for comparison *)

Section Specification.

Context {F : Type} {D : Dtype F}.
Local Open Scope dtype_scope.

(** Correspondence tracking as the specification words it: the point of
    the first set at [i] equals the point of the second set at [j], both
    coordinates, and [j] is the first such index. *)
Definition point_eqb (p q : pt2 F) : bool :=
  feqb (fst q) (fst p) && feqb (snd q) (snd p).

(** Two points share a coordinate: what one row contributes to
    [np.where]. *)
Definition shares_coordinate (p q : pt2 F) : bool :=
  feqb (fst q) (fst p) || feqb (snd q) (snd p).

Fixpoint first_equal (image_points_2 : list (pt2 F)) (p : pt2 F) (j : nat)
    : option nat :=
  match image_points_2 with
  | [] => None
  | q :: rest =>
      if point_eqb p q then Some j else first_equal rest p (S j)
  end.

Fixpoint tracks_spec (image_points_1 image_points_2 : list (pt2 F)) (i : nat)
    : list nat * list nat :=
  match image_points_1 with
  | [] => ([], [])
  | p :: rest =>
      let '(cm1, cm2) := tracks_spec rest image_points_2 (S i) in
      match first_equal image_points_2 p 0 with
      | Some j => (i :: cm1, j :: cm2)
      | None => (cm1, cm2)
      end
  end.

(** The Euclidean distance between a projected and an observed point, and
    the mean of these distances over the points. *)
Definition distance2 (pq : pt2 F * pt2 F) : F :=
  let '((u, v), (u', v')) := pq in
  fsqrt ((u - u') * (u - u') + (v - v') * (v - v')).

Definition mean_distance (projected observed : list (pt2 F)) : F :=
  np_mean (map distance2 (combine projected observed)).

(** Filtering by a mask, where the lengths agree. *)
Definition select {A} (arr : list A) (mask : list bool) : list A :=
  map fst (filter snd (combine arr mask)).

(** The four arrays of a [matched] value have one length. *)
Definition parallel (r : @matched F) : Prop :=
  let '(pa, pb, ca, cb) := r in
  List.length pa = List.length pb /\
  List.length pb = List.length ca /\
  List.length ca = List.length cb.

(** A printed message names [path]. *)
Fixpoint contains (s sub : string) : bool :=
  String.prefix sub s ||
  match s with
  | EmptyString => false
  | String _ s' => contains s' sub
  end.

Definition mentions (out : stdout F) (path : string) : bool :=
  existsb (existsb (fun a => match a with
                             | PStr s => contains s path
                             | _ => false
                             end)) out.

(** Reading a PLY header back: the count on its [element vertex] line. *)
Fixpoint split_lines (s : string) : list string :=
  match s with
  | EmptyString => [EmptyString]
  | String c rest =>
      if Ascii.eqb c (ascii_of_nat 10) then EmptyString :: split_lines rest
      else match split_lines rest with
           | l :: ls => String c l :: ls
           | [] => [String c EmptyString]
           end
  end.

Fixpoint no_newline (s : string) : bool :=
  match s with
  | EmptyString => true
  | String c rest => negb (Ascii.eqb c (ascii_of_nat 10)) && no_newline rest
  end.

Fixpoint strip_prefix (p s : string) : option string :=
  match p, s with
  | EmptyString, _ => Some s
  | String a p', String b s' =>
      if Ascii.eqb a b then strip_prefix p' s' else None
  | String _ _, EmptyString => None
  end.

Fixpoint first_some {A B} (f : A -> option B) (l : list A) : option B :=
  match l with
  | [] => None
  | a :: rest => match f a with
                 | Some b => Some b
                 | None => first_some f rest
                 end
  end.

Definition declared_vertex_count (header : string) : option nat :=
  first_some (fun line =>
                match strip_prefix "    element vertex " line with
                | Some digits =>
                    option_map Nat.of_uint (NilEmpty.uint_of_string digits)
                | None => None
                end)
             (split_lines header).

(** Entries of the tuples that hold vectors and matrices, rows and
    columns counted from 0. *)
Definition nth3 {A} (t : A * A * A) (i : nat) : A :=
  let '(a, b, c) := t in
  match i with 0 => a | 1 => b | _ => c end%nat.
Definition nth4 {A} (t : A * A * A * A) (j : nat) : A :=
  let '(a, b, c, d) := t in
  match j with 0 => a | 1 => b | 2 => c | _ => d end%nat.
Definition entry33 (m : mat33 F) (i j : nat) : F := nth3 (nth3 m i) j.
Definition entry34 (m : mat34 F) (i j : nat) : F := nth4 (nth3 m i) j.

(** The transforms and the projection matrix as the specification writes
    them, entry by entry: [R | t] has the columns of R, then t; the first
    camera's transform is [I | 0]; K.T has at row i and column j the sum
    over k of K[i,k] T[k,j]. *)
Definition augmented (R : mat33 F) (t : vec3 F) (i j : nat) : F :=
  if (j <? 3)%nat then entry33 R i j else nth3 t i.
Definition identity_transform (i j : nat) : F :=
  if (i =? j)%nat then of_Z 1 else of_Z 0.
Definition projection (K : mat33 F) (T : nat -> nat -> F) (i j : nat) : F :=
  entry33 K i 0 * T 0%nat j + entry33 K i 1 * T 1%nat j
  + entry33 K i 2 * T 2%nat j.

(** A channel is an 8-bit sample. *)
Definition is_byte (c : Z) : Prop := (0 <= c <= 255)%Z.
Definition is_pixel (c : color) : Prop :=
  is_byte (fst (fst c)) /\ is_byte (snd (fst c)) /\ is_byte (snd c).

End Specification.

(** The sum of a list of reals. *)
Definition Rsum (l : list R) : R := fold_right Rplus 0%R l.

(** The byte written for a colour sample [c], and the checks made of it
    over the 256 samples. *)
Definition wrapped (c : Z) : Z := ((255 * c) mod 256)%Z.

Definition byte_check (c : Z) : bool :=
  (out_color c =? wrapped c)%Z &&
  (float_to_int (float_of_Z (wrapped c)) =? wrapped c)%Z &&
  (if (0 <? c)%Z then (wrapped c =? 256 - c)%Z else (wrapped c =? 0)%Z) &&
  Bool.eqb (wrapped c =? c)%Z ((c =? 0)%Z || (c =? 128)%Z).

(** The line written for an accumulated point and its colour. *)
Definition written_line (pc : vec3 float * color) : ply_line (F := float) :=
  let '(c0, c1, c2) := snd pc in
  (scale200 (fst pc), (wrapped c0, wrapped c1, wrapped c2)).

(** ** Further stand-ins and predicates *)

(** An OpenCV that, like the real one, refuses to triangulate two point
    arrays of different lengths. *)
Definition checked {F : Type} (cv : CV F) : CV F := {|
  image := @image F cv;
  descriptors := @descriptors F cv;
  imread := @imread F cv;
  pixel := @pixel F cv;
  detectAndCompute := @detectAndCompute F cv;
  knnMatch := @knnMatch F cv;
  findEssentialMat := @findEssentialMat F cv;
  recoverPose := @recoverPose F cv;
  triangulatePoints := fun P1 P2 a b =>
    if (List.length a =? List.length b)%nat
    then @triangulatePoints F cv P1 P2 a b
    else inl CvError;
  solvePnPRansac := @solvePnPRansac F cv;
  Rodrigues := @Rodrigues F cv;
  RodriguesMat := @RodriguesMat F cv;
  convertPointsFromHomogeneous := @convertPointsFromHomogeneous F cv;
  projectPoints := @projectPoints F cv
|}.

(** The scripted OpenCV with the second match only: the key point matched
    in the next image is then not the one matched from the previous. *)
Definition untracked {F : Type} {D : Dtype F} : CV F :=
  let cv := scripted (fun _ => true) (of_Z 1) in {|
  image := @image F cv;
  descriptors := @descriptors F cv;
  imread := @imread F cv;
  pixel := @pixel F cv;
  detectAndCompute := @detectAndCompute F cv;
  knnMatch := fun _ _ =>
    inr [({| queryIdx := 1; trainIdx := 2; distance := of_Z 1 |},
          {| queryIdx := 1; trainIdx := 1; distance := of_Z 2 |})];
  findEssentialMat := @findEssentialMat F cv;
  recoverPose := @recoverPose F cv;
  triangulatePoints := @triangulatePoints F cv;
  solvePnPRansac := @solvePnPRansac F cv;
  Rodrigues := @Rodrigues F cv;
  RodriguesMat := @RodriguesMat F cv;
  convertPointsFromHomogeneous := @convertPointsFromHomogeneous F cv;
  projectPoints := @projectPoints F cv
|}.

(** Classes of binary64 values: finite and not a zero; NaN; NaN or the
    positive infinity. *)
Definition is_finite_nonzero (x : float) : bool :=
  match Prim2SF x with
  | S754_finite _ _ _ => true
  | _ => false
  end.

Definition isnan (x : float) : bool :=
  match Prim2SF x with
  | S754_nan => true
  | _ => false
  end.

Definition nan_or_pinf (x : float) : Prop :=
  Prim2SF x = S754_nan \/ Prim2SF x = S754_infinity false.

(** A point with a coordinate that is NaN or infinite. *)
Definition has_non_finite (p : vec3 float) : bool :=
  let '(x, y, z) := p in
  negb (is_finite x && is_finite y && is_finite z).

(** The scripted OpenCV in which no neighbour found in image 2 passes the
    ratio test, so that the pair of images 1 and 2 has no good match;
    descriptors carry the path of their image. *)
Definition unmatched {F : Type} {D : Dtype F} : CV F :=
  let cv := scripted (fun _ => true) (of_Z 1) in {|
  image := string;
  descriptors := string;
  imread := fun path => Some path;
  pixel := @pixel F cv;
  detectAndCompute := fun img => inr (scripted_keypoints, img);
  knnMatch := fun _ des2 =>
    if String.eqb des2 "./Assets/0002.jpg"
    then inr [({| queryIdx := 0; trainIdx := 0; distance := of_Z 1 |},
               {| queryIdx := 0; trainIdx := 1; distance := of_Z 1 |})]
    else inr scripted_matches;
  findEssentialMat := @findEssentialMat F cv;
  recoverPose := @recoverPose F cv;
  triangulatePoints := @triangulatePoints F cv;
  solvePnPRansac := @solvePnPRansac F cv;
  Rodrigues := @Rodrigues F cv;
  RodriguesMat := @RodriguesMat F cv;
  convertPointsFromHomogeneous := @convertPointsFromHomogeneous F cv;
  projectPoints := @projectPoints F cv
|}.

(** The ratio test of [get_matches], on one pair of neighbours. *)
Definition passes_ratio_test {F : Type} {D : Dtype F}
    (mn : DMatch F * DMatch F) : bool :=
  fltb (distance (fst mn)) (fmul (dec 7 10) (distance (snd mn))).

(* ================================================================== *)
(** * Part II: properties                                               *)
(* ================================================================== *)

(** ** Running computations *)

Lemma mbind_inr {F A B} (m : M F A) (f : A -> M F B) out b out' :
  mbind m f out = (inr b, out') ->
  exists a out1, m out = (inr a, out1) /\ f a out1 = (inr b, out').
Proof.
  unfold mbind. destruct (m out) as [[e | a] out1]; intros H.
  - discriminate.
  - exists a, out1. split; [reflexivity | exact H].
Qed.

Lemma mbind_inl {F A B} (m : M F A) (f : A -> M F B) out e out1 :
  m out = (inl e, out1) -> mbind m f out = (inl e, out1).
Proof. unfold mbind. intros ->. reflexivity. Qed.

Lemma mbind_step {F A B} (m : M F A) (f : A -> M F B) out a out1 :
  m out = (inr a, out1) -> mbind m f out = f a out1.
Proof. unfold mbind. intros ->. reflexivity. Qed.

Lemma lift_inr {F A} (r : res A) (out : stdout F) a out' :
  lift r out = (inr a, out') -> r = inr a /\ out' = out.
Proof. unfold lift. intros H. inversion H. subst. split; reflexivity. Qed.

Lemma unpack_inr {F A} (r : option A) (out : stdout F) a out' :
  unpack r out = (inr a, out') -> r = Some a /\ out' = out.
Proof.
  destruct r; unfold unpack, mret, mraise; intros H; inversion H.
  subst. split; reflexivity.
Qed.

Lemma rbind_inr {A B} (m : res A) (f : A -> res B) b :
  rbind m f = inr b -> exists a, m = inr a /\ f a = inr b.
Proof.
  destruct m as [e | a]; simpl; intros H; [discriminate |].
  exists a. split; [reflexivity | exact H].
Qed.

(** Peel one successful bind off a hypothesis. *)
Ltac step_in H :=
  let a := fresh "a" in
  let o := fresh "out" in
  let E := fresh "E" in
  first
    [ apply mbind_inr in H; destruct H as (a & o & E & H)
    | apply rbind_inr in H; destruct H as (a & E & H) ].

(** ** numpy indexing *)

Lemma take_rows_length {A} (arr : list A) idx l :
  take_rows arr idx = inr l -> List.length l = List.length idx.
Proof.
  revert l. induction idx as [| i rest IH]; simpl; intros l H.
  - inversion H. reflexivity.
  - destruct (nth_error arr i); [| discriminate].
    destruct (take_rows arr rest) as [e | l']; [discriminate |].
    inversion H. simpl. f_equal. apply IH. reflexivity.
Qed.

Lemma take_rows_nth {A} (arr : list A) idx l :
  take_rows arr idx = inr l ->
  forall k i, nth_error idx k = Some i -> nth_error l k = nth_error arr i.
Proof.
  revert l. induction idx as [| i0 rest IH]; simpl; intros l H k i Hk.
  - destruct k; discriminate.
  - destruct (nth_error arr i0) eqn:E0; [| discriminate].
    destruct (take_rows arr rest) as [e | l']; [discriminate |].
    inversion H; subst. destruct k as [| k]; simpl in *.
    + inversion Hk; subst. symmetry. exact E0.
    + eapply IH; [reflexivity | exact Hk].
Qed.

Lemma take_rows_total {A} (arr : list A) idx :
  Forall (fun i => (i < List.length arr)%nat) idx ->
  exists l, take_rows arr idx = inr l.
Proof.
  induction 1 as [| i rest Hi _ IH]; simpl.
  - eexists. reflexivity.
  - destruct (nth_error arr i) eqn:E.
    + destruct IH as (l & ->). eexists. reflexivity.
    + apply nth_error_None in E. lia.
Qed.

Lemma bool_index_select {A} (arr : list A) mask l :
  bool_index arr mask = inr l ->
  l = select arr mask /\ List.length arr = List.length mask.
Proof.
  revert mask l. induction arr as [| a arr IH]; intros [| b mask] l H;
    simpl in H; try discriminate.
  - inversion H. split; reflexivity.
  - destruct (bool_index arr mask) as [e | l'] eqn:E; [discriminate |].
    destruct (IH _ _ E) as [-> Hlen]. inversion H; subst.
    split; [| simpl; congruence].
    unfold select. simpl. destruct b; reflexivity.
Qed.

Lemma bool_index_total {A} (arr : list A) mask :
  List.length arr = List.length mask -> bool_index arr mask = inr (select arr mask).
Proof.
  revert mask. induction arr as [| a arr IH]; intros [| b mask] H;
    simpl in *; try discriminate; [reflexivity |].
  rewrite IH by congruence. unfold select. simpl. destruct b; reflexivity.
Qed.

Lemma select_length {A B} (a : list A) (b : list B) mask :
  List.length a = List.length mask -> List.length b = List.length mask ->
  List.length (select a mask) = List.length (select b mask).
Proof.
  revert b mask. induction a as [| x a IH]; intros [| y b] [| m mask] Ha Hb;
    simpl in *; try discriminate; [reflexivity |].
  unfold select in *. simpl. specialize (IH b mask).
  destruct m; simpl; rewrite IH; congruence.
Qed.

(** ** Correspondence tracking ([common_points]) *)

Section Tracker.

Context {F : Type} {D : Dtype F}.

Lemma where_rows_nil (pts : list (pt2 F)) p j :
  where_rows pts p j = [] <-> forallb (fun q => negb (shares_coordinate p q)) pts = true.
Proof.
  revert j. induction pts as [| q rest IH]; intros j; simpl.
  - tauto.
  - unfold shares_coordinate at 1.
    destruct (feqb (fst q) (fst p)); simpl; [split; discriminate |].
    destruct (feqb (snd q) (snd p)); simpl; [split; discriminate |].
    apply IH.
Qed.

Lemma where_rows_head (pts : list (pt2 F)) p j k rest :
  where_rows pts p j = k :: rest ->
  exists q, nth_error pts (k - j) = Some q /\ (j <= k)%nat /\
            shares_coordinate p q = true /\
            forallb (fun q' => negb (shares_coordinate p q')) (firstn (k - j) pts) = true.
Proof.
  revert j. induction pts as [| q pts IH]; intros j H; simpl in H.
  - discriminate.
  - destruct (shares_coordinate p q) eqn:Es.
    + assert (k = j) as ->.
      { unfold shares_coordinate in Es.
        destruct (feqb (fst q) (fst p)); simpl in *.
        - inversion H. reflexivity.
        - rewrite Es in H. inversion H. reflexivity. }
      exists q. rewrite Nat.sub_diag. simpl. auto.
    + unfold shares_coordinate in Es. apply orb_false_iff in Es as [E1 E2].
      rewrite E1, E2 in H. simpl in H.
      destruct (IH _ H) as (q' & Hn & Hle & Hs & Hf).
      exists q'. replace (k - j)%nat with (S (k - S j)) by lia.
      simpl. unfold shares_coordinate at 2. rewrite E1, E2. simpl.
      repeat split; auto. lia.
Qed.

(** The loop with its accumulators set aside. *)
Lemma common_loop_acc (pts1 pts2 : list (pt2 F)) i cm1 cm2 :
  common_loop pts1 pts2 i cm1 cm2 =
  (cm1 ++ fst (common_loop pts1 pts2 i [] []),
   cm2 ++ snd (common_loop pts1 pts2 i [] [])).
Proof.
  revert i cm1 cm2. induction pts1 as [| p rest IH]; intros i cm1 cm2; simpl.
  - rewrite !app_nil_r. reflexivity.
  - destruct (where_rows pts2 p 0) as [| a00 t].
    + apply IH.
    + rewrite IH. rewrite (IH (S i) [i] [a00]). simpl.
      rewrite <- !app_assoc. reflexivity.
Qed.

(** What the tracker reports: row [i] of the first set is reported as
    soon as some row of the second set shares one coordinate with it, and
    is paired with the first such row. *)
Lemma common_loop_reports (pts1 pts2 : list (pt2 F)) i0 i j :
  In (i, j) (combine (fst (common_loop pts1 pts2 i0 [] []))
                     (snd (common_loop pts1 pts2 i0 [] []))) ->
  exists p q, nth_error pts1 (i - i0) = Some p /\ (i0 <= i)%nat /\
              nth_error pts2 j = Some q /\ shares_coordinate p q = true /\
              forallb (fun q' => negb (shares_coordinate p q')) (firstn j pts2) = true.
Proof.
  revert i0. induction pts1 as [| p rest IH]; intros i0; simpl.
  - intros [].
  - destruct (where_rows pts2 p 0) as [| a00 t] eqn:Ew.
    + intros H. destruct (IH _ H) as (p' & q & Hp & Hle & Hq & Hs & Hf).
      exists p', q. replace (i - i0)%nat with (S (i - S i0)) by lia.
      simpl. repeat split; auto. lia.
    + rewrite common_loop_acc. simpl. intros [H | H].
      * inversion H; subst. apply where_rows_head in Ew.
        destruct Ew as (q & Hq & _ & Hs & Hf). rewrite Nat.sub_0_r in *.
        exists p, q. rewrite Nat.sub_diag. simpl. auto.
      * destruct (IH _ H) as (p' & q & Hp & Hle & Hq & Hs & Hf).
        exists p', q. replace (i - i0)%nat with (S (i - S i0)) by lia.
        simpl. repeat split; auto. lia.
Qed.

Lemma common_loop_lengths (pts1 pts2 : list (pt2 F)) i :
  List.length (fst (common_loop pts1 pts2 i [] [])) =
  List.length (snd (common_loop pts1 pts2 i [] [])).
Proof.
  revert i. induction pts1 as [| p rest IH]; intros i; simpl; [reflexivity |].
  destruct (where_rows pts2 p 0); [apply IH |].
  rewrite common_loop_acc. simpl. f_equal. apply IH.
Qed.

End Tracker.

(** The tracking example of the specification: the first pair maps (1,1)
    to (2,2), the second (2,2) to (3,3); index 0 is reported in both sets
    and nothing is left in the two complementary arrays. *)
Example common_points_example :
  common_points (F := float) [(2, 2)%float] [(2, 2)%float] [(3, 3)%float] [] =
  (inr ([0%nat], [0%nat], [], []),
   [[PStr " Shape New Array"; PShape 0 2; PShape 0 2]]).
Proof. vm_compute. reflexivity. Qed.

(** C1.  The tracker compares coordinates entry by entry: on the first
    set [(1,5)] and the second set [(1,7)], which have no point in
    common, it reports index 0 of both sets as a common track (and removes
    row 0 from both complementary arrays), where the tracking of the
    specification reports nothing. *)
Theorem common_points_reports_unequal_points :
  common_points (F := float) [(1, 5)%float] [(1, 7)%float] [(4, 9)%float] [] =
    (inr ([0%nat], [0%nat], [], []),
     [[PStr " Shape New Array"; PShape 0 2; PShape 0 2]]) /\
  point_eqb (1, 5)%float (1, 7)%float = false /\
  tracks_spec [(1, 5)%float] [(1, 7)%float] 0 = ([], []).
Proof. vm_compute. repeat split; reflexivity. Qed.

(** ** Triangulation *)

(** IEEE division by a zero: the quotient is NaN or an infinity. *)
Lemma div_by_zero_not_finite (x w : float) s :
  Prim2SF w = S754_zero s -> is_finite (PrimFloat.div x w) = false.
Proof.
  intros Hw. unfold is_finite. rewrite div_spec, Hw.
  destruct (Prim2SF x); reflexivity.
Qed.

(** The triangulator on the scripted OpenCV with a zero 4th coordinate:
    one correspondence in, one point out, none of its coordinates
    finite. *)
Lemma triangulation_returns_degenerate_point :
  exists x y z t,
    triangulation (cv := scripted (fun _ => true) 0%float)
      transform_matrix_0 transform_matrix_0 [(1, 1)%float] [(1, 1)%float] =
      inr ([(1, 1)%float], [(1, 1)%float], [(x, y, z, t)]) /\
    is_finite x = false /\ is_finite y = false /\
    is_finite z = false /\ is_finite t = false.
Proof.
  exists infinity, infinity, infinity, nan.
  vm_compute. repeat split; reflexivity.
Qed.

(** C2.  The triangulator has no degeneracy check: whatever
    homogeneous solution OpenCV returns, it returns every column of it, in
    order, divided by its 4th coordinate, so as many points come out as
    there are columns; and a column whose 4th coordinate is a zero comes
    out with four coordinates that are NaN or infinite. *)
Theorem triangulation_keeps_every_column (cv : CV float)
    (P1 P2 : mat34 float) (a b : list (pt2 float)) (pt_cloud : list (vec4 float)) :
  triangulatePoints P1 P2 a b = inr pt_cloud ->
  exists out,
    triangulation P1 P2 a b = inr (a, b, out) /\
    out = map normalise pt_cloud /\
    List.length out = List.length pt_cloud /\
    forall k x y z t s,
      nth_error pt_cloud k = Some (x, y, z, t) ->
      Prim2SF t = S754_zero s ->
      exists x' y' z' t',
        nth_error out k = Some (x', y', z', t') /\
        is_finite x' = false /\ is_finite y' = false /\
        is_finite z' = false /\ is_finite t' = false.
Proof.
  intros H. exists (map normalise pt_cloud).
  unfold triangulation. rewrite H. simpl.
  repeat split; [apply length_map |].
  intros k x y z t s Hk Ht.
  exists (PrimFloat.div x t), (PrimFloat.div y t),
         (PrimFloat.div z t), (PrimFloat.div t t).
  rewrite nth_error_map, Hk. simpl.
  repeat split; eapply div_by_zero_not_finite; exact Ht.
Qed.

Lemma triangulation_keeps_every_column_witness :
  exists out,
    triangulation (cv := scripted (fun _ => true) 0%float)
      transform_matrix_0 transform_matrix_0 [(1, 1)%float] [(1, 1)%float] =
      inr ([(1, 1)%float], [(1, 1)%float], out) /\
    out = map normalise [(1, 1, 1, 0)%float] /\
    List.length out = 1%nat /\
    forall k x y z t s,
      nth_error [(1, 1, 1, 0)%float] k = Some (x, y, z, t) ->
      Prim2SF t = S754_zero s ->
      exists x' y' z' t',
        nth_error out k = Some (x', y', z', t') /\
        is_finite x' = false /\ is_finite y' = false /\
        is_finite z' = false /\ is_finite t' = false.
Proof.
  apply (@triangulation_keeps_every_column
           (scripted (fun _ => true) 0%float)
           transform_matrix_0 transform_matrix_0
           [(1, 1)%float] [(1, 1)%float] [(1, 1, 1, 0)%float]).
  reflexivity.
Defined.

(** ** Pose registration ([PnP]) *)

(** On the scripted OpenCV a single correspondence survives as inlier,
    out of five; the registrar returns the pose and the pruned arrays. *)
Lemma PnP_returns_pose_with_one_inlier :
  PnP (cv := scripted (fun _ => true) 1%float)
    [(0, 0, 1); (1, 0, 1); (0, 1, 1); (1, 1, 1); (2, 2, 1)]%float
    [(0, 0); (1, 0); (0, 1); (1, 1); (2, 2)]%float
    K [10; 11; 12; 13; 14]%nat =
  inr (eye3, (0, 0, 1)%float, [(0, 0)%float], [(0, 0, 1)%float], [10%nat]).
Proof. vm_compute. reflexivity. Qed.

(** C3.  The registrar does not count inliers and has no
    failure of its own: once the RANSAC solver and the axis-angle
    conversion have returned, it returns the pose, with the arrays
    unpruned when no inlier list was set, and pruned to the listed rows
    (however few) when the listed indices are rows of the arrays. *)
Theorem PnP_returns_pose_whatever_the_inliers {F : Type} {D : Dtype F}
    (cv : CV F) {A : Type}
    (obj_point : list (vec3 F)) (image_point : list (pt2 F)) (Km : mat33 F)
    (rot_vector : list A) retval rvec tvec inlier rot_matrix :
  solvePnPRansac obj_point image_point Km = inr (retval, rvec, tvec, inlier) ->
  Rodrigues rvec = inr rot_matrix ->
  match inlier with
  | None =>
      PnP obj_point image_point Km rot_vector =
      inr (rot_matrix, tvec, image_point, obj_point, rot_vector)
  | Some idx =>
      Forall (fun i => (i < List.length image_point)%nat /\
                       (i < List.length obj_point)%nat /\
                       (i < List.length rot_vector)%nat) idx ->
      exists image_point' obj_point' rot_vector',
        PnP obj_point image_point Km rot_vector =
          inr (rot_matrix, tvec, image_point', obj_point', rot_vector') /\
        take_rows image_point idx = inr image_point' /\
        take_rows obj_point idx = inr obj_point' /\
        take_rows rot_vector idx = inr rot_vector' /\
        List.length image_point' = List.length idx /\
        List.length obj_point' = List.length idx /\
        List.length rot_vector' = List.length idx
  end.
Proof.
  intros Hs Hr. unfold PnP. rewrite Hs. simpl. rewrite Hr. simpl.
  destruct inlier as [idx |]; [| reflexivity].
  intros Hidx.
  destruct (take_rows_total image_point (idx := idx)) as (ip & Hip).
  { eapply Forall_impl; [| exact Hidx]. simpl. tauto. }
  destruct (take_rows_total obj_point (idx := idx)) as (op & Hop).
  { eapply Forall_impl; [| exact Hidx]. simpl. tauto. }
  destruct (take_rows_total rot_vector (idx := idx)) as (rv & Hrv).
  { eapply Forall_impl; [| exact Hidx]. simpl. tauto. }
  exists ip, op, rv. rewrite Hip, Hop, Hrv. simpl.
  repeat split; eauto using take_rows_length.
Qed.

Lemma PnP_returns_pose_whatever_the_inliers_witness :
  exists image_point' obj_point' rot_vector',
    PnP (cv := scripted (fun _ => true) 1%float)
      [(0, 0, 1); (1, 0, 1); (0, 1, 1); (1, 1, 1); (2, 2, 1)]%float
      [(0, 0); (1, 0); (0, 1); (1, 1); (2, 2)]%float
      K [10; 11; 12; 13; 14]%nat =
      inr (eye3, (0, 0, 1)%float, image_point', obj_point', rot_vector') /\
    take_rows [(0, 0); (1, 0); (0, 1); (1, 1); (2, 2)]%float [0%nat] =
      inr image_point' /\
    take_rows [(0, 0, 1); (1, 0, 1); (0, 1, 1); (1, 1, 1); (2, 2, 1)]%float
      [0%nat] = inr obj_point' /\
    take_rows [10; 11; 12; 13; 14]%nat [0%nat] = inr rot_vector' /\
    List.length image_point' = 1%nat /\
    List.length obj_point' = 1%nat /\
    List.length rot_vector' = 1%nat.
Proof.
  refine (@PnP_returns_pose_whatever_the_inliers float float64
            (scripted (fun _ => true) 1%float) nat
            [(0, 0, 1); (1, 0, 1); (0, 1, 1); (1, 1, 1); (2, 2, 1)]%float
            [(0, 0); (1, 0); (0, 1); (1, 1); (2, 2)]%float
            K [10; 11; 12; 13; 14]%nat
            true (0, 0, 0)%float (0, 0, 1)%float (Some [0%nat]) eye3
            eq_refl eq_refl _).
  repeat constructor.
Defined.

(** ** Reprojection error *)

Section Reprojection.

Local Open Scope R_scope.

Lemma fold_left_Rplus (l : list R) (a : R) :
  fold_left (fadd (F := R)) l a = a + Rsum l.
Proof.
  revert a. induction l as [| x l IH]; intros a; simpl.
  - lra.
  - rewrite IH. simpl. lra.
Qed.

Lemma np_mean_real (l : list R) :
  np_mean l = Rsum l / INR (List.length l).
Proof.
  unfold np_mean. rewrite fold_left_Rplus. simpl.
  rewrite <- INR_IZR_INZ, Rplus_0_l. reflexivity.
Qed.

Lemma distance2_nonneg (pq : pt2 R * pt2 R) : 0 <= distance2 pq.
Proof. destruct pq as [[u v] [u' v']]. simpl. apply sqrt_pos. Qed.

Lemma distance2_sqr (pq : pt2 R * pt2 R) (acc : R) :
  sq_diff acc pq = acc + distance2 pq * distance2 pq.
Proof.
  destruct pq as [[u v] [u' v']]. simpl.
  pose proof (Rle_0_sqr (u - u')) as Hu. pose proof (Rle_0_sqr (v - v')) as Hv.
  unfold Rsqr in Hu, Hv. rewrite sqrt_sqrt; lra.
Qed.

Lemma fold_left_sq_diff (l : list (pt2 R * pt2 R)) (acc : R) :
  fold_left sq_diff l acc =
  acc + Rsum (map (fun pq => distance2 pq * distance2 pq) l).
Proof.
  revert acc. induction l as [| pq l IH]; intros acc; simpl.
  - lra.
  - rewrite IH, distance2_sqr. lra.
Qed.

(** For non-negative terms, the sum of the squares is at most the square
    of the sum. *)
Lemma Rsum_squares_le (ds : list R) :
  Forall (fun d => 0 <= d) ds ->
  0 <= Rsum ds /\ Rsum (map (fun d => d * d) ds) <= Rsum ds * Rsum ds.
Proof.
  induction 1 as [| d ds Hd _ [IH0 IH]]; simpl.
  - lra.
  - split; [lra | nra].
Qed.

Lemma norm_le_sum (ds : list R) :
  Forall (fun d => 0 <= d) ds ->
  R_sqrt.sqrt (Rsum (map (fun d => d * d) ds)) <= Rsum ds.
Proof.
  intros H. destruct (Rsum_squares_le H) as [H0 Hle].
  rewrite <- (sqrt_square (Rsum ds)) by exact H0.
  apply sqrt_le_1_alt. exact Hle.
Qed.

(** The value computed, in terms of the per-point distances. *)
Lemma norm_L2_real (a b : list (pt2 R)) :
  List.length a = List.length b ->
  norm_L2 a b =
  inr (R_sqrt.sqrt (Rsum (map (fun pq => distance2 pq * distance2 pq) (combine a b)))).
Proof.
  intros H. unfold norm_L2. rewrite H, Nat.eqb_refl.
  rewrite fold_left_sq_diff. simpl. rewrite Rplus_0_l. reflexivity.
Qed.

(** On the scripted OpenCV, two points projected at distances 3 and 4
    from their observations: the evaluator returns 5/2, the mean distance
    is 7/2. *)
Lemma reprojection_error_is_not_the_mean_distance :
  reprojection_error (cv := scripted (fun _ => true) 1)
    (Cartesian [(3, 0, 1); (4, 0, 1)]) [(0, 0); (0, 0)]
    transform_matrix_0 K = inr (5 / 2, [(3, 0, 1); (4, 0, 1)]) /\
  mean_distance [(3, 0); (4, 0)] [(0, 0); (0, 0)] = 7 / 2 /\
  5 / 2 <> 7 / 2.
Proof.
  assert (H3 : R_sqrt.sqrt (3 * 3) = 3) by (apply sqrt_square; lra).
  assert (H4 : R_sqrt.sqrt (4 * 4) = 4) by (apply sqrt_square; lra).
  assert (H5 : R_sqrt.sqrt (5 * 5) = 5) by (apply sqrt_square; lra).
  split; [| split; [| lra]].
  - unfold reprojection_error. simpl. unfold norm_L2. simpl.
    replace (0 + (3 - 0) * (3 - 0) + (0 - 0) * (0 - 0) +
             (4 - 0) * (4 - 0) + (0 - 0) * (0 - 0)) with (5 * 5) by lra.
    rewrite H5. reflexivity.
  - unfold mean_distance, np_mean. simpl.
    replace ((3 - 0) * (3 - 0) + (0 - 0) * (0 - 0)) with (3 * 3) by lra.
    replace ((4 - 0) * (4 - 0) + (0 - 0) * (0 - 0)) with (4 * 4) by lra.
    rewrite H3, H4. lra.
Qed.

(** C4.  For a non-empty set of points, the evaluator returns
    the L2 norm of the whole array of residuals, that is the square root
    of the sum over the points of the squared distance between projected
    and observed point, divided by the number of points.  This is at most
    the mean of the per-point distances, and equal to it for one point. *)
Theorem reprojection_error_is_norm_over_count (cv : CV R)
    (obj_points : obj_points_arg) (image_points : list (pt2 R))
    (transform_matrix : mat34 R) (Km : mat33 R)
    (rot_vector : vec3 R) (obj_points' : list (vec3 R))
    (image_points_calc : list (pt2 R)) :
  RodriguesMat (sub33 transform_matrix) = inr rot_vector ->
  cartesian_points obj_points = inr obj_points' ->
  projectPoints obj_points' rot_vector (col3 transform_matrix) Km =
    inr image_points_calc ->
  List.length image_points_calc = List.length image_points ->
  image_points_calc <> [] ->
  let ds := map distance2 (combine image_points_calc image_points) in
  let e := R_sqrt.sqrt (Rsum (map (fun d => d * d) ds)) /
           INR (List.length image_points_calc) in
  reprojection_error obj_points image_points transform_matrix Km =
    inr (e, obj_points') /\
  e <= mean_distance image_points_calc image_points /\
  (List.length image_points_calc = 1%nat ->
   e = mean_distance image_points_calc image_points).
Proof.
  intros Hrod Hobj Hproj Hlen Hne ds e.
  assert (Hds : Forall (fun d => 0 <= d) ds).
  { apply Forall_forall. intros d Hd. apply in_map_iff in Hd.
    destruct Hd as (pq & <- & _). apply distance2_nonneg. }
  assert (Hn : List.length ds = List.length image_points_calc).
  { unfold ds. rewrite length_map, length_combine. lia. }
  assert (Hpos : 0 < INR (List.length image_points_calc)).
  { apply lt_0_INR. destruct image_points_calc; [congruence | simpl; lia]. }
  assert (Hmean : mean_distance image_points_calc image_points =
                  Rsum ds / INR (List.length image_points_calc)).
  { unfold mean_distance. rewrite np_mean_real. fold ds. rewrite Hn.
    reflexivity. }
  split; [| split].
  - unfold reprojection_error, rbind.
    rewrite Hrod. cbv beta iota. rewrite Hobj. cbv beta iota.
    rewrite Hproj. cbv beta iota. rewrite (norm_L2_real _ _ Hlen).
    unfold e, ds. rewrite map_map. cbn [fdiv of_Z real].
    rewrite <- INR_IZR_INZ.
    destruct (List.length image_points_calc) eqn:El; [| reflexivity].
    destruct image_points_calc; [congruence | discriminate].
  - rewrite Hmean. unfold e, Rdiv.
    apply Rmult_le_compat_r.
    + left. apply Rinv_0_lt_compat. exact Hpos.
    + apply norm_le_sum. exact Hds.
  - intros H1. rewrite Hmean. unfold e. f_equal.
    rewrite H1 in Hn. destruct ds as [| d [| d' ds']]; try discriminate.
    simpl. inversion Hds; subst.
    rewrite !Rplus_0_r. apply sqrt_square. assumption.
Qed.

Lemma reprojection_error_is_norm_over_count_witness :
  let ds := map distance2 (combine [(3, 0); (4, 0)] [(0, 0); (0, 0)]) in
  let e := R_sqrt.sqrt (Rsum (map (fun d => d * d) ds)) / INR 2 in
  reprojection_error (cv := scripted (fun _ => true) 1)
    (Cartesian [(3, 0, 1); (4, 0, 1)]) [(0, 0); (0, 0)]
    transform_matrix_0 K = inr (e, [(3, 0, 1); (4, 0, 1)]) /\
  e <= mean_distance [(3, 0); (4, 0)] [(0, 0); (0, 0)] /\
  (2%nat = 1%nat -> e = mean_distance [(3, 0); (4, 0)] [(0, 0); (0, 0)]).
Proof.
  refine (@reprojection_error_is_norm_over_count
            (scripted (fun _ => true) 1)
            (Cartesian [(3, 0, 1); (4, 0, 1)]) [(0, 0); (0, 0)]
            transform_matrix_0 K (0, 0, 0) [(3, 0, 1); (4, 0, 1)]
            [(3, 0); (4, 0)] eq_refl eq_refl eq_refl eq_refl _).
  discriminate.
Defined.

End Reprojection.

(** ** Unreadable frames *)

Section MissingFrame.

Context {F : Type} {D : Dtype F} (cv : CV F).

Lemma get_matches_unreadable (path1 path2 : string) (out : stdout F) :
  imread path1 = None \/ imread path2 = None ->
  get_matches path1 path2 out =
  (inr None, out ++ [[PStr "Error reading images"]]).
Proof.
  intros H. unfold get_matches.
  destruct (imread path1) as [img1 |]; destruct (imread path2) as [img2 |];
    try reflexivity.
  destruct H; discriminate.
Qed.

Lemma loop_body_unreadable_pair (image_paths : list string) (Km : mat33 F)
    (st : state) (i : nat) (out : stdout F) path_0 path_1 :
  nth_error image_paths i = Some path_0 ->
  nth_error image_paths (i + 1) = Some path_1 ->
  imread path_0 = None \/ imread path_1 = None ->
  loop_body image_paths Km st i out =
  (inl TypeError, out ++ [[PStr "Error reading images"]]).
Proof.
  intros H0 H1 Hread. unfold loop_body, mbind, lift, list_get.
  rewrite H1, H0. rewrite (get_matches_unreadable _ _ _ Hread).
  reflexivity.
Qed.

Lemma loop_body_unreadable_third (image_paths : list string) (Km : mat33 F)
    (st : state) (i : nat) (out : stdout F) path_2 :
  nth_error image_paths (i + 2) = Some path_2 ->
  imread path_2 = None ->
  exists e out', loop_body image_paths Km st i out = (inl e, out').
Proof.
  intros H2 Hread. unfold loop_body, mbind, lift, list_get.
  destruct (nth_error image_paths (i + 1)) as [path_1 |]; [| eauto].
  destruct (nth_error image_paths i) as [path_0 |]; [| eauto].
  destruct (get_matches path_0 path_1 out) as [[e | r] out1]; [eauto |].
  destruct r as [[[[f0 f1] ca] cb] |]; simpl; [| eauto].
  destruct (triangulation (pose_0 st) (pose_1 st) f0 f1)
    as [e | [[f0' f1'] pts]]; [eauto |].
  rewrite H2. rewrite get_matches_unreadable by (right; exact Hread).
  simpl. eauto.
Qed.

Lemma for_loop_raises (body : state -> nat -> M F state) (idx : list nat) i :
  In i idx ->
  (forall st out, exists e out', body st i out = (inl e, out')) ->
  forall st out, exists e out', for_loop body idx st out = (inl e, out').
Proof.
  intros Hin Hbody. induction idx as [| j rest IH]; [destruct Hin |].
  intros st out. simpl. unfold mbind.
  destruct (body st j out) as [[e | st'] out1] eqn:E; [eauto |].
  destruct Hin as [-> | Hin].
  - destruct (Hbody st out) as (e & out' & He). congruence.
  - apply IH. exact Hin.
Qed.

Lemma loop_body_unreadable (image_paths : list string) (Km : mat33 F)
    (st : state) (i k : nat) (out : stdout F) path :
  nth_error image_paths k = Some path ->
  imread path = None ->
  (i <= k <= i + 2)%nat ->
  exists e out', loop_body image_paths Km st i out = (inl e, out').
Proof.
  intros Hk Hread Hi.
  assert (Hcase : k = i \/ k = (i + 1)%nat \/ k = (i + 2)%nat) by lia.
  destruct Hcase as [-> | [-> | ->]].
  - destruct (nth_error image_paths (i + 1)) as [path_1 |] eqn:E1.
    + erewrite loop_body_unreadable_pair; eauto.
    + unfold loop_body, mbind, lift, list_get. rewrite E1. eauto.
  - destruct (nth_error image_paths i) as [path_0 |] eqn:E0.
    + erewrite loop_body_unreadable_pair; eauto.
    + apply nth_error_None in E0.
      assert (nth_error image_paths (i + 1) <> None) by congruence.
      apply nth_error_Some in H. lia.
  - eapply loop_body_unreadable_third; eassumption.
Qed.

Lemma initialise_unreadable (image_paths : list string) (Km : mat33 F)
    (k : nat) (out : stdout F) path :
  nth_error image_paths k = Some path ->
  imread path = None ->
  (k <= 1)%nat ->
  exists e out', initialise image_paths Km out = (inl e, out').
Proof.
  intros Hk Hread Hle. unfold initialise, mbind, lift, list_get.
  destruct (nth_error image_paths 0) as [path0 |] eqn:E0; [| eauto].
  destruct (nth_error image_paths 1) as [path1 |] eqn:E1; [| eauto].
  rewrite get_matches_unreadable; [simpl; eauto |].
  assert (Hcase : k = 0%nat \/ k = 1%nat) by lia.
  destruct Hcase as [-> | ->]; [left | right]; congruence.
Qed.

End MissingFrame.

(** Frame 1 cannot be decoded: [get_matches] returns [None] without
    raising, and what it printed names neither path. *)
Lemma get_matches_names_no_path :
  get_matches
    (cv := scripted (fun p => negb (String.eqb p "./Assets/0001.jpg")) 1%float)
    "./Assets/0000.jpg" "./Assets/0001.jpg" [] =
    (inr None, [[PStr "Error reading images"]]) /\
  mentions (F := float) [[PStr "Error reading images"]] "./Assets/0001.jpg" = false /\
  mentions (F := float) [[PStr "Error reading images"]] "./Assets/0000.jpg" = false.
Proof. vm_compute. repeat split; reflexivity. Qed.

(** C5.  When a frame cannot be decoded, [get_matches] on a
    pair containing it prints the fixed text "Error reading images",
    which names no path, and returns [None] without raising; unpacking
    that result raises TypeError in the caller.  Hence the loop iteration
    whose first pair contains the frame ends in TypeError after that one
    message, every iteration that uses the frame ends in an exception, the
    two-view initialisation does when the frame is one of the first two,
    and no run of the loop gets past the first iteration that uses the
    frame. *)
Theorem unreadable_frame_aborts {F : Type} {D : Dtype F} (cv : CV F)
    (image_paths : list string) (Km : mat33 F) (k : nat) (path : string) :
  nth_error image_paths k = Some path ->
  imread path = None ->
  (forall other out,
     get_matches path other out =
       (inr None, out ++ [[PStr "Error reading images"]]) /\
     get_matches other path out =
       (inr None, out ++ [[PStr "Error reading images"]])) /\
  (forall i st out path_0 path_1,
     i = k \/ (i + 1)%nat = k ->
     nth_error image_paths i = Some path_0 ->
     nth_error image_paths (i + 1) = Some path_1 ->
     loop_body image_paths Km st i out =
       (inl TypeError, out ++ [[PStr "Error reading images"]])) /\
  (forall i st out, (i <= k <= i + 2)%nat ->
     exists e out', loop_body image_paths Km st i out = (inl e, out')) /\
  ((k <= 1)%nat ->
   forall out, exists e out', initialise image_paths Km out = (inl e, out')) /\
  (forall n st out, (k - 2 < n)%nat ->
     exists e out', iterate image_paths Km n st out = (inl e, out')).
Proof.
  intros Hk Hread. repeat split.
  - apply get_matches_unreadable. left. exact Hread.
  - apply get_matches_unreadable. right. exact Hread.
  - intros i st out path_0 path_1 Hi H0 H1.
    eapply loop_body_unreadable_pair; try eassumption.
    destruct Hi as [-> | <-]; [left | right]; congruence.
  - intros i st out Hi. eapply loop_body_unreadable; eassumption.
  - intros Hle out. eapply initialise_unreadable; eassumption.
  - intros n st out Hn. unfold iterate.
    apply for_loop_raises with (i := (k - 2)%nat).
    + apply in_seq. lia.
    + intros st' out'. eapply loop_body_unreadable; try eassumption. lia.
Qed.

Lemma unreadable_frame_aborts_witness :
  let cv := scripted (F := float)
              (fun p => negb (String.eqb p "./Assets/0001.jpg")) 1%float in
  (forall other out,
     get_matches (cv := cv) "./Assets/0001.jpg" other out =
       (inr None, out ++ [[PStr "Error reading images"]]) /\
     get_matches (cv := cv) other "./Assets/0001.jpg" out =
       (inr None, out ++ [[PStr "Error reading images"]])) /\
  (forall i st out path_0 path_1,
     i = 1%nat \/ (i + 1)%nat = 1%nat ->
     nth_error image_paths i = Some path_0 ->
     nth_error image_paths (i + 1) = Some path_1 ->
     loop_body (cv := cv) image_paths K st i out =
       (inl TypeError, out ++ [[PStr "Error reading images"]])) /\
  (forall i st out, (i <= 1 <= i + 2)%nat ->
     exists e out', loop_body (cv := cv) image_paths K st i out = (inl e, out')) /\
  ((1 <= 1)%nat ->
   forall out, exists e out',
     initialise (cv := cv) image_paths K out = (inl e, out')) /\
  (forall n st out, (1 - 2 < n)%nat ->
     exists e out', iterate (cv := cv) image_paths K n st out = (inl e, out')).
Proof.
  intros cv.
  exact (@unreadable_frame_aborts float float64 cv image_paths K 1%nat
           "./Assets/0001.jpg" eq_refl eq_refl).
Defined.

(** ** Two-view initialisation *)

Section TwoView.

Local Open Scope R_scope.

(** With the first transform [I | 0], composing with it changes
    nothing. *)
Lemma compose_with_identity (rot_matrix : mat33 R) (tran_matrix : vec3 R) :
  hstack (matmul33 rot_matrix (sub33 transform_matrix_0))
         (vadd (col3 transform_matrix_0)
               (matvec (sub33 transform_matrix_0) tran_matrix)) =
  hstack rot_matrix tran_matrix.
Proof.
  destruct rot_matrix as [[[[a0 a1] a2] [[b0 b1] b2]] [[c0 c1] c2]].
  destruct tran_matrix as [[t0 t1] t2].
  unfold hstack, matmul33, vadd, matvec, cols33, sub33, col3,
    transform_matrix_0, dot3. cbn [fadd fmul of_Z real].
  repeat (f_equal; try ring).
Qed.

Lemma select_twice_length {A B} (a : list A) (b : list B) keep1 keep2 :
  List.length a = List.length keep1 -> List.length b = List.length keep1 ->
  List.length (select a keep1) = List.length keep2 ->
  List.length (select (select a keep1) keep2) =
  List.length (select (select b keep1) keep2).
Proof.
  intros Ha Hb H2. apply select_length; [exact H2 |].
  rewrite <- H2. symmetry. apply select_length; assumption.
Qed.

(** C6.  In real arithmetic: when the initialisation cell completes,
    [transform_matrix_1] is [R | t] for the rotation and translation that
    pose recovery returned, [pose_1] is K.[R | t] and [pose_0] is
    K.[I | 0], each entry by entry; the two coordinate arrays and the two
    colour arrays are the matched arrays filtered by the essential-matrix
    mask and then by the pose-recovery mask, pose recovery having been run
    on the once filtered coordinates, and the four arrays have one
    length. *)
Theorem initialise_outputs (cv : CV R) (image_paths : list string)
    (Km : mat33 R) (out out' : stdout R) (tv : two_view) :
  initialise image_paths Km out = (inr tv, out') ->
  (forall i j, (i < 3)%nat -> (j < 4)%nat ->
     entry34 (tv_transform_matrix_1 tv) i j =
       augmented (tv_rot_matrix tv) (tv_tran_matrix tv) i j /\
     entry34 (tv_pose_1 tv) i j =
       projection Km (augmented (tv_rot_matrix tv) (tv_tran_matrix tv)) i j /\
     entry34 (tv_pose_0 tv) i j = projection Km identity_transform i j) /\
  (exists path0 path1 f0 f1 ca cb out1 E mask1 mask2,
     nth_error image_paths 0 = Some path0 /\
     nth_error image_paths 1 = Some path1 /\
     get_matches path0 path1 out = (inr (Some (f0, f1, ca, cb)), out1) /\
     findEssentialMat f0 f1 Km = inr (E, mask1) /\
     recoverPose E (select f0 (map (Z.eqb 1) mask1))
                   (select f1 (map (Z.eqb 1) mask1)) Km =
       inr (tv_rot_matrix tv, tv_tran_matrix tv, mask2) /\
     tv_feature_0 tv =
       select (select f0 (map (Z.eqb 1) mask1)) (map (Z.ltb 0) mask2) /\
     tv_feature_1 tv =
       select (select f1 (map (Z.eqb 1) mask1)) (map (Z.ltb 0) mask2) /\
     tv_color_a tv =
       select (select ca (map (Z.eqb 1) mask1)) (map (Z.ltb 0) mask2) /\
     tv_color_b tv =
       select (select cb (map (Z.eqb 1) mask1)) (map (Z.ltb 0) mask2)) /\
  List.length (tv_feature_0 tv) = List.length (tv_feature_1 tv) /\
  List.length (tv_feature_1 tv) = List.length (tv_color_a tv) /\
  List.length (tv_color_a tv) = List.length (tv_color_b tv).
Proof.
  intros H. unfold initialise in H.
  step_in H. apply lift_inr in E as [E0 ->].
  step_in H. apply lift_inr in E as [E1 ->].
  step_in H. rename E into Hgm.
  step_in H. apply unpack_inr in E as [-> ->].
  destruct a2 as [[[f0 f1] ca] cb].
  step_in H. apply lift_inr in E as [Hess ->]. destruct a1 as [Em mask1].
  step_in H. apply lift_inr in E as [Hf0 ->].
  step_in H. apply lift_inr in E as [Hf1 ->].
  step_in H. apply lift_inr in E as [Hca ->].
  step_in H. apply lift_inr in E as [Hcb ->].
  apply bool_index_select in Hf0 as [-> Lf0].
  apply bool_index_select in Hf1 as [-> Lf1].
  apply bool_index_select in Hca as [-> Lca].
  apply bool_index_select in Hcb as [-> Lcb].
  step_in H. apply lift_inr in E as [Hrec ->].
  destruct a1 as [[rot_matrix tran_matrix] mask2].
  step_in H. apply lift_inr in E as [Hg0 ->].
  step_in H. apply lift_inr in E as [Hg1 ->].
  step_in H. apply lift_inr in E as [Hga ->].
  step_in H. apply lift_inr in E as [Hgb ->].
  apply bool_index_select in Hg0 as [-> Lg0].
  apply bool_index_select in Hg1 as [-> Lg1].
  apply bool_index_select in Hga as [-> Lga].
  apply bool_index_select in Hgb as [-> Lgb].
  step_in H. apply lift_inr in E as [Htri ->].
  destruct a1 as [[f0' f1'] cloud].
  step_in H. apply lift_inr in E as [Hconv ->].
  unfold mret in H. injection H as <- <-.
  cbn [tv_transform_matrix_1 tv_pose_1 tv_pose_0 tv_rot_matrix tv_tran_matrix
       tv_feature_0 tv_feature_1 tv_color_a tv_color_b].
  unfold list_get in E0, E1.
  destruct (nth_error image_paths 0) as [path0 |] eqn:N0; [| discriminate].
  destruct (nth_error image_paths 1) as [path1 |] eqn:N1; [| discriminate].
  inversion E0; inversion E1; subst.
  set (T1 := hstack (matmul33 rot_matrix _) _).
  assert (HT : T1 = hstack rot_matrix tran_matrix)
    by exact (compose_with_identity rot_matrix tran_matrix).
  rewrite HT. clear T1 HT.
  split; [| repeat split].
  - intros i j Hi Hj.
    destruct Km as [[[[k00 k01] k02] [[k10 k11] k12]] [[k20 k21] k22]].
    destruct rot_matrix as [[[[r00 r01] r02] [[r10 r11] r12]] [[r20 r21] r22]].
    destruct tran_matrix as [[t0 t1] t2].
    destruct i as [| [| [| i]]]; [| | | lia];
      (destruct j as [| [| [| [| j]]]]; [| | | | lia]);
      (split; [reflexivity |]);
      unfold entry34, projection, augmented, identity_transform, entry33,
        nth3, nth4, matmul, hstack, cols33, sub33, col3, transform_matrix_0,
        dot3;
      cbn [Nat.ltb Nat.leb Nat.eqb fadd fmul of_Z real];
      split; ring.
  - exists a, a0, f0, f1, ca, cb. eexists. exists Em, mask1, mask2.
    repeat split; try eassumption; reflexivity.
  - apply select_twice_length; assumption.
  - apply select_twice_length; assumption.
  - apply select_twice_length; assumption.
Qed.

(** The initialisation runs on the scripted OpenCV. *)
Lemma scripted_initialise_runs :
  exists tv out',
    initialise (cv := scripted (fun _ => true) 1) image_paths K [] =
    (inr tv, out').
Proof.
  unfold initialise, mbind, lift, list_get, get_matches. simpl.
  unfold matchesMask. simpl.
  destruct (Rlt_dec 1 (7 / 10 * 2)) as [_ | n]; [| exfalso; apply n; lra].
  simpl. eexists. eexists. reflexivity.
Qed.

Lemma initialise_outputs_witness :
  exists tv out',
    initialise (cv := scripted (fun _ => true) 1) image_paths K [] =
      (inr tv, out') /\
    tv_rot_matrix tv = eye3 /\
    tv_tran_matrix tv = (0, 0, 1) /\
    entry34 (tv_transform_matrix_1 tv) 2 3 = 1 /\
    entry34 (tv_pose_1 tv) 0 3 = 51857 / 100 /\
    entry34 (tv_pose_0 tv) 0 3 = 0 /\
    List.length (tv_feature_0 tv) = List.length (tv_color_b tv).
Proof.
  destruct scripted_initialise_runs as (tv & out' & H).
  exists tv, out'. split; [exact H |].
  destruct (@initialise_outputs _ _ _ _ _ _ H)
    as (Hent & (p0 & p1 & f0 & f1 & ca & cb & out1 & E & m1 & m2 &
                _ & _ & _ & _ & Hrec & _) & L1 & L2 & L3).
  cbn [recoverPose scripted] in Hrec. injection Hrec as HR Ht _.
  destruct (Hent 2%nat 3%nat ltac:(lia) ltac:(lia)) as (HT & _ & _).
  destruct (Hent 0%nat 3%nat ltac:(lia) ltac:(lia)) as (_ & HP1 & HP0).
  rewrite HT, HP1, HP0, <- HR, <- Ht.
  unfold projection, augmented, identity_transform, entry33, nth3, K, dec,
    eye3.
  cbn [Nat.ltb Nat.leb Nat.eqb fadd fmul fdiv of_Z real].
  repeat split; try lra; congruence.
Defined.

End TwoView.

(** ** Export ([to_ply]) *)

Section Exporter.

Context {F : Type} {D : Dtype F}.

Lemma select_map {A B} (g : A -> B) (l : list A) (mask : list bool) :
  select (map g l) mask = map g (select l mask).
Proof.
  revert mask. unfold select.
  induction l as [| a l IH]; intros [| b mask]; simpl; try reflexivity.
  destruct b; simpl; rewrite IH; reflexivity.
Qed.

Lemma select_In {A} (l : list A) (mask : list bool) (a : A) :
  In a (select l mask) <->
  exists i, nth_error l i = Some a /\ nth_error mask i = Some true.
Proof.
  revert mask. unfold select.
  induction l as [| x l IH]; intros [| b mask]; simpl.
  - split; [tauto | intros ([| i] & H & _); discriminate].
  - split; [tauto | intros ([| i] & H & _); discriminate].
  - split; [tauto | intros ([| i] & _ & H); discriminate].
  - destruct b; simpl; rewrite IH; split.
    + intros [-> | (i & H)]; [exists 0%nat; auto | exists (S i); auto].
    + intros ([| i] & Hx & Hm); simpl in *; [left; congruence | right; eauto].
    + intros (i & H). exists (S i). auto.
    + intros ([| i] & Hx & Hm); simpl in *; [discriminate | eauto].
Qed.

(** Indexing by the indices [np.where] returns is filtering by the
    condition. *)
Lemma np_where_take {A} (pre l : list A) (cond : list bool) :
  List.length l = List.length cond ->
  take_rows (pre ++ l) (np_where cond (List.length pre)) = inr (select l cond).
Proof.
  revert pre cond. induction l as [| a l IH]; intros pre [| b cond] H;
    simpl in H; try discriminate; [reflexivity |].
  assert (Hrec : take_rows (pre ++ a :: l) (np_where cond (S (List.length pre)))
                 = inr (select l cond)).
  { specialize (IH (pre ++ [a]) cond).
    rewrite <- app_assoc, length_app in IH. simpl in IH.
    rewrite Nat.add_1_r in IH. apply IH. congruence. }
  simpl. destruct b.
  - simpl. rewrite nth_error_app2, Nat.sub_diag by lia. simpl.
    rewrite Hrec. reflexivity.
  - rewrite Hrec. reflexivity.
Qed.

Lemma distances_length (verts : list vert) :
  List.length (distances verts) = List.length verts.
Proof. unfold distances. apply length_map. Qed.

Lemma retained_select (point_cloud : list (vec3 F)) (colors : list color) :
  List.length point_cloud = List.length colors ->
  let verts := map hstack_row (combine (out_points point_cloud) (out_colors colors)) in
  hstack_verts (out_points point_cloud) (out_colors colors) = inr verts /\
  retained point_cloud colors = inr (select verts (within (distances verts))).
Proof.
  intros Hlen verts.
  assert (Hh : hstack_verts (out_points point_cloud) (out_colors colors) = inr verts).
  { unfold hstack_verts, out_points, out_colors. rewrite !length_map, Hlen.
    rewrite Nat.eqb_refl. reflexivity. }
  split; [exact Hh |].
  unfold retained. rewrite Hh. simpl.
  apply (np_where_take []).
  unfold within. rewrite length_map, distances_length. reflexivity.
Qed.

Lemma retained_inr (point_cloud : list (vec3 F)) (colors : list color) verts :
  retained point_cloud colors = inr verts ->
  List.length point_cloud = List.length colors.
Proof.
  unfold retained, hstack_verts, out_points, out_colors.
  rewrite !length_map.
  destruct (Nat.eqb_spec (List.length point_cloud) (List.length colors));
    [auto | discriminate].
Qed.

End Exporter.

(** *** The header *)

Lemma split_lines_line (l rest : string) :
  no_newline l = true ->
  split_lines (l ++ String (ascii_of_nat 10) rest) = l :: split_lines rest.
Proof.
  induction l as [| c l IH]; simpl; intros H.
  - reflexivity.
  - apply andb_true_iff in H as [Hc Hl]. apply negb_true_iff in Hc.
    rewrite Hc, (IH Hl). reflexivity.
Qed.

Lemma strip_prefix_app (p s : string) : strip_prefix p (p ++ s) = Some s.
Proof.
  induction p as [| c p IH]; simpl; [reflexivity |].
  rewrite Ascii.eqb_refl. exact IH.
Qed.

Lemma no_newline_app (s t : string) :
  no_newline (s ++ t) = no_newline s && no_newline t.
Proof.
  induction s as [| c s IH]; simpl; [reflexivity |].
  rewrite IH, andb_assoc. reflexivity.
Qed.

Lemma no_newline_digits (d : Decimal.uint) :
  no_newline (NilEmpty.string_of_uint d) = true.
Proof. induction d; simpl; auto. Qed.

Lemma string_app_assoc (s t u : string) : ((s ++ t) ++ u = s ++ (t ++ u))%string.
Proof. induction s as [| c s IH]; simpl; [| rewrite IH]; reflexivity. Qed.

Lemma split_lines_newline (l rest : string) :
  no_newline l = true ->
  split_lines (l ++ newline ++ rest) = l :: split_lines rest.
Proof. intros H. unfold newline. simpl. apply split_lines_line. exact H. Qed.

(** Reading back the header written for [n] vertices gives [n]. *)
Lemma declared_vertex_count_ply_header (n : nat) :
  declared_vertex_count (ply_header n) = Some n.
Proof.
  unfold declared_vertex_count, ply_header.
  set (digits := NilEmpty.string_of_uint (Nat.to_uint n)).
  rewrite (split_lines_newline "ply") by reflexivity.
  rewrite (split_lines_newline "    format ascii 1.0") by reflexivity.
  rewrite <- (string_app_assoc "    element vertex " digits).
  rewrite split_lines_newline.
  - cbn [first_some].
    change (strip_prefix "    element vertex " "ply") with (@None string).
    change (strip_prefix "    element vertex " "    format ascii 1.0")
      with (@None string).
    cbv beta iota. rewrite strip_prefix_app. unfold digits.
    rewrite NilEmpty.usu. simpl. rewrite DecimalNat.Unsigned.of_to.
    reflexivity.
  - rewrite no_newline_app. unfold digits. rewrite no_newline_digits.
    reflexivity.
Qed.

(** *** What is kept *)

(** A cloud of three points on a line: the third lies at distance 900
    from the centroid and the threshold is 900; its distance does not
    exceed the threshold, and it is not written. *)
Lemma to_ply_discards_point_at_threshold :
  let point_cloud := [(0, 0, 0); (0, 0, 0); (6.75, 0, 0)]%float in
  let colors := [(1, 2, 3); (4, 5, 6); (7, 8, 9)]%Z in
  let verts := map hstack_row (combine (out_points point_cloud) (out_colors colors)) in
  distances verts = [450; 450; 900]%float /\
  fadd (np_mean (distances verts)) (of_Z 300) = 900%float /\
  PrimFloat.ltb 900 900 = false /\
  exists f,
    to_ply "./Assets" point_cloud colors = inr f /\
    header f = ply_header 2 /\
    data_lines f = [((0, 0, 0)%float, (255, 254, 253)%Z);
                    ((0, 0, 0)%float, (252, 251, 250)%Z)].
Proof.
  vm_compute. repeat split. eexists. repeat split.
Qed.

(** C7.  When points and colours have the same number of
    rows, the exporter writes exactly the rows whose distance from the
    centroid of the scaled points is strictly below mean(distance) + 300,
    in their order: row [i] is written when [dist[i] < mean + 300] holds
    and discarded when it does not. *)
Theorem to_ply_keeps_strictly_within {F : Type} {D : Dtype F}
    (path : string) (point_cloud : list (vec3 F)) (colors : list color) :
  List.length point_cloud = List.length colors ->
  let verts :=
    map hstack_row (combine (out_points point_cloud) (out_colors colors)) in
  let dist := distances verts in
  let threshold := fadd (np_mean dist) (of_Z 300) in
  let keep := map (fun d => fltb d threshold) dist in
  exists f,
    to_ply path point_cloud colors = inr f /\
    data_lines f = map savetxt_row (select verts keep) /\
    List.length dist = List.length verts /\
    forall v, In v (select verts keep) <->
              exists i d, nth_error verts i = Some v /\
                          nth_error dist i = Some d /\
                          fltb d threshold = true.
Proof.
  intros Hlen verts dist threshold keep.
  destruct (retained_select point_cloud colors Hlen) as [_ Hret].
  fold verts in Hret. fold dist in Hret.
  change (within dist) with keep in Hret.
  unfold to_ply. rewrite Hret. simpl. eexists. split; [reflexivity |].
  simpl. split; [reflexivity |]. split; [apply distances_length |].
  intros v. rewrite select_In. split.
  - intros (i & Hv & Hk). unfold keep in Hk. rewrite nth_error_map in Hk.
    destruct (nth_error dist i) as [d |] eqn:Ed; [| discriminate].
    simpl in Hk. exists i, d. repeat split; congruence.
  - intros (i & d & Hv & Hd & Hlt). exists i. split; [exact Hv |].
    unfold keep. rewrite nth_error_map, Hd. simpl. congruence.
Qed.

(** The export example of the specification: 19 points at one place and
    one point far away, beyond mean(distance) + 300; the 19 are written. *)
Lemma to_ply_keeps_strictly_within_witness :
  let point_cloud := (repeat (0, 0, 0) 19 ++ [(2, 0, 0)])%float in
  let colors := repeat (10, 20, 30)%Z 20 in
  let verts :=
    map hstack_row (combine (out_points point_cloud) (out_colors colors)) in
  let dist := distances verts in
  let threshold := fadd (np_mean dist) (of_Z 300) in
  let keep := map (fun d => fltb d threshold) dist in
  exists f,
    to_ply "./Assets" point_cloud colors = inr f /\
    data_lines f = map savetxt_row (select verts keep) /\
    List.length dist = List.length verts /\
    forall v, In v (select verts keep) <->
              exists i d, nth_error verts i = Some v /\
                          nth_error dist i = Some d /\
                          fltb d threshold = true.
Proof.
  exact (@to_ply_keeps_strictly_within float float64 "./Assets"
           (repeat (0, 0, 0) 19 ++ [(2, 0, 0)])%float
           (repeat (10, 20, 30)%Z 20) eq_refl).
Defined.

Example to_ply_export_example :
  exists f,
    to_ply "./Assets" (repeat (0, 0, 0) 19 ++ [(2, 0, 0)])%float
           (repeat (10, 20, 30)%Z 20) = inr f /\
    header f = ply_header 19 /\
    data_lines f = repeat ((0, 0, 0)%float, (246, 236, 226)%Z) 19.
Proof. vm_compute. eexists. repeat split. Qed.

(** C8.  The vertex count declared in the header of the file the
    exporter writes is the number of data lines it writes. *)
Theorem to_ply_header_counts_data_lines {F : Type} {D : Dtype F}
    (path : string) (point_cloud : list (vec3 F)) (colors : list color)
    (f : ply_file) :
  to_ply path point_cloud colors = inr f ->
  declared_vertex_count (header f) = Some (List.length (data_lines f)).
Proof.
  unfold to_ply. intros H. apply rbind_inr in H as (verts & _ & H).
  injection H as <-. simpl.
  rewrite length_map. apply declared_vertex_count_ply_header.
Qed.

Lemma to_ply_header_counts_data_lines_witness :
  declared_vertex_count
    (header {| file_name := "./Assets/res/point_cloud.ply";
               header := ply_header 2;
               data_lines := [((0, 0, 0)%float, (255, 254, 253)%Z);
                              ((0, 0, 0)%float, (252, 251, 250)%Z)] |}) =
  Some (List.length [((0, 0, 0)%float, (255, 254, 253)%Z);
                     ((0, 0, 0)%float, (252, 251, 250)%Z)]).
Proof.
  refine (@to_ply_header_counts_data_lines float float64 "./Assets"
            [(0, 0, 0); (0, 0, 0); (6.75, 0, 0)]%float
            [(1, 2, 3); (4, 5, 6); (7, 8, 9)]%Z _ _).
  vm_compute. reflexivity.
Defined.

(** *** The colour columns *)

Lemma byte_check_all : forallb byte_check (map Z.of_nat (seq 0 256)) = true.
Proof. vm_compute. reflexivity. Qed.

Lemma byte_check_byte (c : Z) : is_byte c -> byte_check c = true.
Proof.
  intros [H0 H255].
  pose proof byte_check_all as H. rewrite forallb_forall in H. apply H.
  apply in_map_iff. exists (Z.to_nat c). split; [lia |].
  apply in_seq. lia.
Qed.

Lemma out_color_byte (c : Z) :
  is_byte c ->
  out_color c = wrapped c /\
  to_int (of_Z (wrapped c) : float) = wrapped c /\
  ((0 < c)%Z -> wrapped c = (256 - c)%Z) /\
  (c = 0%Z -> wrapped c = 0%Z) /\
  (wrapped c = c <-> c = 0%Z \/ c = 128%Z).
Proof.
  intros Hb. pose proof (byte_check_byte Hb) as H. unfold byte_check in H.
  apply andb_true_iff in H as [H H4]. apply andb_true_iff in H as [H H3].
  apply andb_true_iff in H as [H1 H2].
  apply Z.eqb_eq in H1, H2. apply Bool.eqb_prop in H4.
  repeat split.
  - exact H1.
  - exact H2.
  - intros Hpos. apply Z.ltb_lt in Hpos. rewrite Hpos in H3.
    apply Z.eqb_eq. exact H3.
  - intros ->. reflexivity.
  - intros He. apply Z.eqb_eq in He. rewrite He in H4. symmetry in H4.
    apply orb_true_iff in H4 as [H4 | H4]; apply Z.eqb_eq in H4; auto.
  - intros Hc. apply Z.eqb_eq. rewrite H4. apply orb_true_iff.
    destruct Hc as [-> | ->]; auto.
Qed.

Lemma combine_map2 {A B A' B'} (g : A -> A') (h : B -> B') (a : list A) (b : list B) :
  combine (map g a) (map h b) = map (fun ab => (g (fst ab), h (snd ab))) (combine a b).
Proof.
  revert b. induction a as [| x a IH]; intros [| y b]; simpl; try reflexivity.
  rewrite IH. reflexivity.
Qed.

Lemma select_incl {A} (l : list A) (mask : list bool) (a : A) :
  In a (select l mask) -> In a l.
Proof.
  intros H. apply select_In in H as (i & H & _).
  eapply nth_error_In. exact H.
Qed.

(** C10.  Every line the exporter writes is the line of an accumulated
    point, in order: its coordinates scaled by 200 and, for each colour
    channel [c] in 0..255, the byte (255.c) mod 256, which is 256 - c for
    c > 0 and 0 for c = 0, hence the sampled value only for c = 0 and
    c = 128. *)
Theorem to_ply_writes_wrapped_colours (path : string)
    (point_cloud : list (vec3 float)) (colors : list color) (f : ply_file) :
  to_ply path point_cloud colors = inr f ->
  Forall is_pixel colors ->
  (exists keep : list bool,
     data_lines f = map written_line (select (combine point_cloud colors) keep)) /\
  (forall c, is_byte c ->
     out_color c = wrapped c /\
     ((0 < c)%Z -> wrapped c = (256 - c)%Z) /\
     (c = 0%Z -> wrapped c = 0%Z) /\
     (wrapped c = c <-> c = 0%Z \/ c = 128%Z)).
Proof.
  intros H Hpix. split.
  - unfold to_ply in H. apply rbind_inr in H as (verts & Hret & H).
    injection H as <-. cbn [data_lines].
    pose proof (retained_inr _ _ Hret) as Hlen.
    destruct (retained_select point_cloud colors Hlen) as [_ Hsel].
    rewrite Hsel in Hret. injection Hret as <-.
    set (keep := within _). exists keep.
    unfold out_points, out_colors. rewrite combine_map2, map_map.
    rewrite select_map, map_map.
    apply map_ext_in. intros [p [[c0 c1] c2]] Hin.
    apply select_incl in Hin. apply in_combine_r in Hin.
    rewrite Forall_forall in Hpix. destruct (Hpix _ Hin) as (P0 & P1 & P2).
    simpl in P0, P1, P2.
    destruct (out_color_byte P0) as (E0 & T0 & _).
    destruct (out_color_byte P1) as (E1 & T1 & _).
    destruct (out_color_byte P2) as (E2 & T2 & _).
    unfold written_line, savetxt_row, hstack_row, out_pixel. cbn [fst snd].
    rewrite E0, E1, E2, T0, T1, T2. reflexivity.
  - intros c Hb. destruct (out_color_byte Hb) as (E & _ & R). split; assumption.
Qed.

Lemma to_ply_writes_wrapped_colours_witness :
  (exists keep : list bool,
     data_lines {| file_name := "./Assets/res/point_cloud.ply";
                   header := ply_header 2;
                   data_lines := [((0, 0, 0)%float, (255, 254, 253)%Z);
                                  ((0, 0, 0)%float, (252, 251, 250)%Z)] |} =
     map written_line
       (select (combine [(0, 0, 0); (0, 0, 0); (6.75, 0, 0)]%float
                        [(1, 2, 3); (4, 5, 6); (7, 8, 9)]%Z) keep)) /\
  (forall c, is_byte c ->
     out_color c = wrapped c /\
     ((0 < c)%Z -> wrapped c = (256 - c)%Z) /\
     (c = 0%Z -> wrapped c = 0%Z) /\
     (wrapped c = c <-> c = 0%Z \/ c = 128%Z)).
Proof.
  refine (@to_ply_writes_wrapped_colours "./Assets"
            [(0, 0, 0); (0, 0, 0); (6.75, 0, 0)]%float
            [(1, 2, 3); (4, 5, 6); (7, 8, 9)]%Z _ _ _).
  - vm_compute. reflexivity.
  - repeat constructor; unfold is_byte; simpl; lia.
Defined.

(** ** The control loop *)

Section Loop.

Context {F : Type} {D : Dtype F} (cv : CV F).

Lemma for_loop_app (body : state -> nat -> M F state) (l1 l2 : list nat)
    (st : state) (out : stdout F) :
  for_loop body (l1 ++ l2) st out =
  mbind (for_loop body l1 st) (for_loop body l2) out.
Proof.
  revert st out. induction l1 as [| i l1 IH]; intros st out; simpl.
  - reflexivity.
  - unfold mbind. destruct (body st i out) as [[e | st'] out1].
    + reflexivity.
    + rewrite IH. reflexivity.
Qed.

(** Destructure the tuple a continuation matches on. *)
Ltac open_tuple H :=
  repeat match type of H with
         | context [match ?x with pair _ _ => _ end] => destruct x
         end.

(** One completed iteration appends to the three accumulators and
    shifts the poses. *)
Lemma loop_body_appends (image_paths : list string) (Km : mat33 F)
    (st st' : state) (i : nat) (out out' : stdout F) :
  loop_body image_paths Km st i out = (inr st', out') ->
  exists pose_2 new_points new_colors,
    pose_array st' = pose_array st ++ ravel34 pose_2 /\
    total_points st' = total_points st ++ new_points /\
    total_colors st' = total_colors st ++ new_colors /\
    new_colors <> [] /\
    pose_0 st' = pose_1 st /\
    pose_1 st' = pose_2.
Proof.
  intros H. unfold loop_body in H.
  do 21 (step_in H; open_tuple H).
  unfold mret in H. injection H as Hst _. subst st'.
  match goal with
  | Hv : lift (vstack_colors _ ?cvec) _ = _ |- _ =>
      apply lift_inr in Hv as [Hv _]; unfold vstack_colors in Hv;
      destruct cvec as [| c cs]; [discriminate |]; injection Hv as <-
  end.
  eexists. eexists. exists (c :: cs).
  cbn [pose_array total_points total_colors pose_0 pose_1].
  repeat split. discriminate.
Qed.

Lemma ravel34_length (m : mat34 F) : List.length (ravel34 m) = 12%nat.
Proof. destruct m as [[[[[a0 a1] a2] a3] [[[b0 b1] b2] b3]] [[[c0 c1] c2] c3]]. reflexivity. Qed.


Lemma iterate_succ (image_paths : list string) (Km : mat33 F) (n : nat)
    (st : state) (out : stdout F) :
  iterate image_paths Km (S n) st out =
  mbind (iterate image_paths Km n st)
        (fun st1 => loop_body image_paths Km st1 n) out.
Proof.
  unfold iterate. rewrite seq_S, for_loop_app. simpl.
  unfold mbind. destruct (for_loop _ (seq 0 n) st out) as [[e | st1] out1];
    [reflexivity |].
  destruct (loop_body image_paths Km st1 n out1) as [[e | st2] out2];
    reflexivity.
Qed.

End Loop.

(** Two iterations of the loop run on the scripted OpenCV. *)
Lemma scripted_loop_runs :
  exists st2 out2,
    iterate (cv := scripted (fun _ => true) 1%float) image_paths K 2
      scripted_start [] = (inr st2, out2).
Proof. vm_compute. eexists. eexists. reflexivity. Qed.

(** C9.  Each completed iteration of the control loop extends the pose
    history by the twelve entries of the new projection matrix and the
    accumulated points by the newly triangulated ones, leaving what was
    accumulated before as a prefix: when N iterations complete, so do
    the first N-1, and the point count and pose history after N are at
    least those after N-1. *)
Theorem iterate_grows {F : Type} {D : Dtype F} (cv : CV F)
    (image_paths : list string) (Km : mat33 F) (n : nat)
    (st st2 : state) (out out2 : stdout F) :
  iterate image_paths Km (S n) st out = (inr st2, out2) ->
  exists st1 out1 pose_2 new_points,
    iterate image_paths Km n st out = (inr st1, out1) /\
    pose_array st2 = pose_array st1 ++ ravel34 pose_2 /\
    total_points st2 = total_points st1 ++ new_points /\
    List.length (pose_array st2) = (List.length (pose_array st1) + 12)%nat /\
    (List.length (total_points st1) <= List.length (total_points st2))%nat.
Proof.
  intros H. rewrite iterate_succ in H.
  apply mbind_inr in H as (st1 & out1 & Hn & Hbody).
  apply loop_body_appends in Hbody
    as (pose_2 & pts & cols & Hp & Ht & _).
  exists st1, out1, pose_2, pts. repeat split; try assumption.
  - rewrite Hp, length_app, ravel34_length. reflexivity.
  - rewrite Ht, length_app. lia.
Qed.

Lemma iterate_grows_witness :
  exists st2 st1 out1 pose_2 new_points,
    iterate (cv := scripted (fun _ => true) 1%float) image_paths K 1
      scripted_start [] = (inr st1, out1) /\
    pose_array st2 = pose_array st1 ++ ravel34 pose_2 /\
    total_points st2 = total_points st1 ++ new_points /\
    List.length (pose_array st2) = (List.length (pose_array st1) + 12)%nat /\
    (List.length (total_points st1) <= List.length (total_points st2))%nat.
Proof.
  destruct scripted_loop_runs as (st2 & out2 & H).
  exists st2. exact (@iterate_grows _ _ _ _ _ _ _ _ _ _ H).
Defined.

(** ** Further facts about the accumulated arrays *)

Section Accumulators.

Context {F : Type} {D : Dtype F} (cv : CV F).

Lemma collect_parallel (img1 img2 : image) (kp1 kp2 : list (pt2 F))
    (matches : list ((DMatch F * DMatch F) * (Z * Z))) (acc r : @matched F) :
  collect img1 img2 kp1 kp2 matches acc = inr r ->
  parallel acc -> parallel r.
Proof.
  revert acc. induction matches as [| [[m n] mask_j] rest IH];
    intros acc H Hacc; simpl in H.
  - injection H as <-. exact Hacc.
  - destruct (fst mask_j =? 1)%Z; [| eapply IH; eassumption].
    do 4 step_in H. destruct acc as [[[pa pb] ca] cb].
    eapply IH; [exact H |].
    destruct Hacc as (H1 & H2 & H3). unfold parallel.
    rewrite !length_app. simpl. lia.
Qed.

(** What [get_matches] returns, when it returns arrays, is parallel, and
    nothing was printed. *)
Lemma get_matches_parallel (path1 path2 : string) (out out' : stdout F)
    (r : @matched F) :
  get_matches path1 path2 out = (inr (Some r), out') ->
  parallel r /\ out' = out.
Proof.
  unfold get_matches.
  destruct (imread path1) as [img1 |]; destruct (imread path2) as [img2 |];
    try (unfold mbind, print, mret; simpl; intros H; discriminate).
  intros H. apply lift_inr in H as [H ->]. split; [| reflexivity].
  step_in H. destruct a as [kp1 des1].
  step_in H. destruct a as [kp2 des2].
  do 2 step_in H. injection H as <-.
  eapply collect_parallel; [eassumption |].
  simpl. auto.
Qed.

(** The accumulators after [m] iterations are prefixes of those after
    any later iteration that completes. *)
Lemma iterate_prefix (image_paths : list string) (Km : mat33 F) (m k : nat)
    (st st2 : state) (out out2 : stdout F) :
  iterate image_paths Km (m + k) st out = (inr st2, out2) ->
  exists st1 out1 poses points,
    iterate image_paths Km m st out = (inr st1, out1) /\
    pose_array st2 = pose_array st1 ++ poses /\
    total_points st2 = total_points st1 ++ points.
Proof.
  revert st2 out2. induction k as [| k IH]; intros st2 out2 H.
  - rewrite Nat.add_0_r in H. exists st2, out2, [], [].
    rewrite !app_nil_r. auto.
  - rewrite Nat.add_succ_r, iterate_succ in H.
    apply mbind_inr in H as (st' & out' & Hn & Hbody).
    apply loop_body_appends in Hbody as (pose_2 & pts & cols & Hp & Ht & _).
    destruct (IH _ _ Hn) as (st1 & out1 & poses & points & H1 & Hp1 & Ht1).
    exists st1, out1, (poses ++ ravel34 pose_2), (points ++ pts).
    rewrite Hp, Ht, Hp1, Ht1, !app_assoc. auto.
Qed.

(** X17.  For the whole loop: what the first [m] frame pairs
    accumulated is still there, in place, when the loop ends. *)
Lemma control_loop_prefix (image_paths : list string) (Km : mat33 F) (m : nat)
    (st st2 : state) (out out2 : stdout F) :
  (m <= List.length image_paths - 2)%nat ->
  control_loop image_paths Km st out = (inr st2, out2) ->
  exists st1 out1 poses points,
    iterate image_paths Km m st out = (inr st1, out1) /\
    pose_array st2 = pose_array st1 ++ poses /\
    total_points st2 = total_points st1 ++ points.
Proof.
  intros Hm H. unfold control_loop in H.
  replace (List.length image_paths - 2)%nat
    with (m + (List.length image_paths - 2 - m))%nat in H by lia.
  eapply iterate_prefix. exact H.
Qed.

End Accumulators.

(* ================================================================== *)
(** * Part III: further properties of the code                          *)
(* ================================================================== *)

(** ** More on correspondence tracking *)

Section TrackerMore.

Context {F : Type} {D : Dtype F}.

Lemma where_rows_exists (pts : list (pt2 F)) p j :
  match where_rows pts p j with
  | [] => existsb (shares_coordinate p) pts = false
  | _ :: _ => existsb (shares_coordinate p) pts = true
  end.
Proof.
  revert j. induction pts as [| q rest IH]; intros j; simpl; [reflexivity |].
  unfold shares_coordinate at 1 3.
  destruct (feqb (fst q) (fst p)); simpl; [reflexivity |].
  destruct (feqb (snd q) (snd p)); simpl; [reflexivity |].
  apply IH.
Qed.

Lemma common_loop_fst (pts1 pts2 : list (pt2 F)) i0 :
  fst (common_loop pts1 pts2 i0 [] []) =
  map fst (filter (fun ip => existsb (shares_coordinate (snd ip)) pts2)
                  (combine (seq i0 (List.length pts1)) pts1)).
Proof.
  revert i0. induction pts1 as [| p rest IH]; intros i0; simpl; [reflexivity |].
  pose proof (where_rows_exists pts2 p 0) as Hw.
  destruct (where_rows pts2 p 0) as [| a00 t]; rewrite Hw.
  - apply IH.
  - rewrite common_loop_acc. simpl. f_equal. apply IH.
Qed.

Lemma nth_error_combine_In {A B} (l1 : list A) (l2 : list B) k a b :
  nth_error l1 k = Some a -> nth_error l2 k = Some b -> In (a, b) (combine l1 l2).
Proof.
  revert l2 k. induction l1 as [| x l1 IH]; intros [| y l2] [| k] H1 H2;
    simpl in *; try discriminate.
  - left. congruence.
  - right. eapply IH; eassumption.
Qed.

Lemma common_loop_pairs (pts1 pts2 : list (pt2 F)) k i j :
  nth_error (fst (common_loop pts1 pts2 0 [] [])) k = Some i ->
  nth_error (snd (common_loop pts1 pts2 0 [] [])) k = Some j ->
  exists p q,
    nth_error pts1 i = Some p /\ nth_error pts2 j = Some q /\
    shares_coordinate p q = true /\
    forallb (fun q' => negb (shares_coordinate p q')) (firstn j pts2) = true.
Proof.
  intros Hi Hj.
  pose proof (nth_error_combine_In _ _ _ Hi Hj) as Hin.
  apply common_loop_reports in Hin.
  destruct Hin as (p & q & Hp & _ & Hq & Hs & Hf).
  rewrite Nat.sub_0_r in Hp. exists p, q. auto.
Qed.

Lemma common_loop_snd_range (pts1 pts2 : list (pt2 F)) :
  Forall (fun j => (j < List.length pts2)%nat)
         (snd (common_loop pts1 pts2 0 [] [])).
Proof.
  apply Forall_forall. intros j Hj. apply In_nth_error in Hj as (k & Hk).
  destruct (nth_error (fst (common_loop pts1 pts2 0 [] [])) k) as [i |] eqn:Ei.
  - destruct (common_loop_pairs _ _ _ Ei Hk) as (p & q & _ & Hq & _).
    apply nth_error_Some. congruence.
  - apply nth_error_None in Ei. rewrite common_loop_lengths in Ei.
    assert (k < List.length (snd (common_loop pts1 pts2 0 [] [])))%nat
      by (apply nth_error_Some; congruence).
    lia.
Qed.

Lemma common_loop_fst_range (pts1 pts2 : list (pt2 F)) :
  Forall (fun i => (i < List.length pts1)%nat)
         (fst (common_loop pts1 pts2 0 [] [])).
Proof.
  apply Forall_forall. intros i Hi. apply In_nth_error in Hi as (k & Hk).
  destruct (nth_error (snd (common_loop pts1 pts2 0 [] [])) k) as [j |] eqn:Ej.
  - destruct (common_loop_pairs _ _ _ Hk Ej) as (p & q & Hp & _).
    apply nth_error_Some. congruence.
  - apply nth_error_None in Ej. rewrite <- common_loop_lengths in Ej.
    assert (k < List.length (fst (common_loop pts1 pts2 0 [] [])))%nat
      by (apply nth_error_Some; congruence).
    lia.
Qed.

(** X1.  What the tracker reports.  The first index list holds, in
    increasing order, exactly the rows of the first set that share a
    coordinate with some row of the second set; the second list has the
    same length and holds, position by position, the first row of the
    second set that shares a coordinate with that row; every index is a
    row of its set. *)
Theorem common_loop_characterised (pts1 pts2 : list (pt2 F)) :
  let cm_points_1 := fst (common_loop pts1 pts2 0 [] []) in
  let cm_points_2 := snd (common_loop pts1 pts2 0 [] []) in
  cm_points_1 =
    map fst (filter (fun ip => existsb (shares_coordinate (snd ip)) pts2)
                    (combine (seq 0 (List.length pts1)) pts1)) /\
  List.length cm_points_2 = List.length cm_points_1 /\
  Forall (fun i => (i < List.length pts1)%nat) cm_points_1 /\
  Forall (fun j => (j < List.length pts2)%nat) cm_points_2 /\
  forall k i j,
    nth_error cm_points_1 k = Some i -> nth_error cm_points_2 k = Some j ->
    exists p q,
      nth_error pts1 i = Some p /\ nth_error pts2 j = Some q /\
      shares_coordinate p q = true /\
      forallb (fun q' => negb (shares_coordinate p q')) (firstn j pts2) = true.
Proof.
  intros cm1 cm2.
  split; [apply common_loop_fst |].
  split; [symmetry; apply common_loop_lengths |].
  split; [apply common_loop_fst_range |].
  split; [apply common_loop_snd_range |].
  intros k i j. apply common_loop_pairs.
Qed.

(** The rows a masked array keeps. *)
Lemma filter_indexed_select {A} (f : nat -> bool) (arr : list A) s :
  map snd (filter (fun ir => f (fst ir)) (combine (seq s (List.length arr)) arr)) =
  select arr (map f (seq s (List.length arr))).
Proof.
  revert s. unfold select. induction arr as [| a arr IH]; intros s; simpl;
    [reflexivity |].
  destruct (f s); simpl; rewrite IH; reflexivity.
Qed.

Lemma mask_rows_in_range {A} (arr : list A) (idx : list nat) :
  Forall (fun j => (j < List.length arr)%nat) idx ->
  mask_rows arr idx =
  inr (select arr (map (fun j => negb (existsb (Nat.eqb j) idx))
                       (seq 0 (List.length arr)))).
Proof.
  intros H. unfold mask_rows.
  replace (forallb (fun j => (j <? List.length arr)%nat) idx) with true.
  - rewrite (filter_indexed_select (fun j => negb (existsb (Nat.eqb j) idx))).
    reflexivity.
  - symmetry. apply forallb_forall. rewrite Forall_forall in H.
    intros j Hj. apply Nat.ltb_lt. auto.
Qed.

Lemma mask_rows_out_of_range {A} (arr : list A) (idx : list nat) j :
  In j idx -> (List.length arr <= j)%nat -> mask_rows arr idx = inl IndexError.
Proof.
  intros Hin Hj. unfold mask_rows.
  destruct (forallb (fun j => (j <? List.length arr)%nat) idx) eqn:E;
    [| reflexivity].
  rewrite forallb_forall in E. specialize (E _ Hin).
  apply Nat.ltb_lt in E. lia.
Qed.

Lemma existsb_eqb_In (j : nat) (idx : list nat) :
  existsb (Nat.eqb j) idx = true <-> In j idx.
Proof.
  rewrite existsb_exists. split.
  - intros (x & Hx & He). apply Nat.eqb_eq in He. congruence.
  - intros H. exists j. split; [exact H | apply Nat.eqb_refl].
Qed.

Lemma unmasked_In {A} (arr : list A) (idx : list nat) (q : A) :
  In q (select arr (map (fun j => negb (existsb (Nat.eqb j) idx))
                        (seq 0 (List.length arr)))) <->
  exists j, nth_error arr j = Some q /\ ~ In j idx.
Proof.
  rewrite select_In. split.
  - intros (j & Hq & Hm). exists j. split; [exact Hq |].
    rewrite nth_error_map in Hm.
    destruct (nth_error (seq 0 (List.length arr)) j) as [j' |] eqn:Ej;
      [| discriminate].
    assert (j' = j).
    { assert (Hlt : (j < List.length (seq 0 (List.length arr)))%nat)
        by (apply nth_error_Some; congruence).
      rewrite length_seq in Hlt.
      rewrite (nth_error_nth' _ 0%nat) in Ej by (rewrite length_seq; exact Hlt).
      rewrite seq_nth in Ej by exact Hlt. injection Ej as <-. reflexivity. }
    subst j'. simpl in Hm. injection Hm as Hm. apply negb_true_iff in Hm.
    intros Hin. apply existsb_eqb_In in Hin. congruence.
  - intros (j & Hq & Hn). exists j. split; [exact Hq |].
    assert (Hlt : (j < List.length arr)%nat) by (apply nth_error_Some; congruence).
    rewrite nth_error_map.
    rewrite (nth_error_nth' _ 0%nat) by (rewrite length_seq; exact Hlt).
    rewrite seq_nth by exact Hlt. simpl. f_equal. apply negb_true_iff.
    destruct (existsb (Nat.eqb j) idx) eqn:E; [| reflexivity].
    apply existsb_eqb_In in E. contradiction.
Qed.

(** X2.  When the third set has at least as many rows as the second,
    the tracker returns: it prints the shapes of the two complementary
    arrays, which hold exactly the rows of the second and of the third
    set whose index was not reported as common, and which have the same
    length when the second and third set do. *)
Theorem common_points_complement (pts1 pts2 pts3 : list (pt2 F))
    (out : stdout F) :
  (List.length pts2 <= List.length pts3)%nat ->
  let cm_points_1 := fst (common_loop pts1 pts2 0 [] []) in
  let cm_points_2 := snd (common_loop pts1 pts2 0 [] []) in
  exists mask_array_1 mask_array_2,
    common_points pts1 pts2 pts3 out =
      (inr (cm_points_1, cm_points_2, mask_array_1, mask_array_2),
       out ++ [[PStr " Shape New Array";
                PShape (List.length mask_array_1) 2;
                PShape (List.length mask_array_2) 2]]) /\
    (forall q, In q mask_array_1 <->
               exists j, nth_error pts2 j = Some q /\ ~ In j cm_points_2) /\
    (forall q, In q mask_array_2 <->
               exists j, nth_error pts3 j = Some q /\ ~ In j cm_points_2) /\
    (List.length pts2 = List.length pts3 ->
     List.length mask_array_1 = List.length mask_array_2).
Proof.
  intros Hle cm1 cm2.
  pose proof (common_loop_snd_range pts1 pts2) as Hr2. fold cm2 in Hr2.
  assert (Hr3 : Forall (fun j => (j < List.length pts3)%nat) cm2).
  { eapply Forall_impl; [| exact Hr2]. simpl. intros; lia. }
  eexists. eexists. split; [| split; [| split]].
  - unfold common_points.
    destruct (common_loop pts1 pts2 0 [] []) as [c1 c2] eqn:Ec.
    simpl in cm1, cm2. subst cm1 cm2.
    unfold mbind, lift, print, mret.
    rewrite (mask_rows_in_range _ Hr2), (mask_rows_in_range _ Hr3).
    reflexivity.
  - intros q. apply unmasked_In.
  - intros q. apply unmasked_In.
  - intros Heq. rewrite Heq. apply select_length;
      rewrite length_map, length_seq; congruence.
Qed.

(** X3.  When a reported index of the second set is not a row of the
    third set, the tracker raises IndexError, and has printed nothing. *)
Theorem common_points_short_third_set (pts1 pts2 pts3 : list (pt2 F))
    (out : stdout F) (j : nat) :
  In j (snd (common_loop pts1 pts2 0 [] [])) ->
  (List.length pts3 <= j)%nat ->
  common_points pts1 pts2 pts3 out = (inl IndexError, out).
Proof.
  intros Hin Hj. unfold common_points.
  pose proof (common_loop_snd_range pts1 pts2) as Hr2.
  destruct (common_loop pts1 pts2 0 [] []) as [c1 c2]. simpl in *.
  unfold mbind, lift.
  rewrite (mask_rows_in_range _ Hr2), (mask_rows_out_of_range _ _ Hin Hj).
  reflexivity.
Qed.

End TrackerMore.

Lemma common_points_complement_witness :
  exists mask_array_1 mask_array_2,
    common_points (F := float) [(1, 1); (9, 9)]%float
      [(4, 4); (1, 1); (6, 7)]%float [(5, 5); (2, 2); (8, 8)]%float [] =
      (inr ([0%nat], [1%nat], mask_array_1, mask_array_2),
       [[PStr " Shape New Array";
         PShape (List.length mask_array_1) 2;
         PShape (List.length mask_array_2) 2]]) /\
    (forall q, In q mask_array_1 <->
               exists j, nth_error [(4, 4); (1, 1); (6, 7)]%float j = Some q /\
                         ~ In j [1%nat]) /\
    (forall q, In q mask_array_2 <->
               exists j, nth_error [(5, 5); (2, 2); (8, 8)]%float j = Some q /\
                         ~ In j [1%nat]) /\
    (3%nat = 3%nat -> List.length mask_array_1 = List.length mask_array_2).
Proof.
  refine (@common_points_complement float float64 [(1, 1); (9, 9)]%float
            [(4, 4); (1, 1); (6, 7)]%float [(5, 5); (2, 2); (8, 8)]%float [] _).
  simpl. lia.
Defined.

Lemma common_points_short_third_set_witness :
  common_points (F := float) [(1, 1); (9, 9)]%float
    [(4, 4); (1, 1); (6, 7)]%float [(5, 5)]%float [] = (inl IndexError, []).
Proof.
  refine (@common_points_short_third_set float float64 [(1, 1); (9, 9)]%float
            [(4, 4); (1, 1); (6, 7)]%float [(5, 5)]%float [] 1%nat _ _).
  - vm_compute. left. reflexivity.
  - simpl. lia.
Defined.

(** ** More on feature matching *)

Section MatcherMore.

Context {F : Type} {D : Dtype F} (cv : CV F).

Lemma collect_appends (img1 img2 : image) (kp1 kp2 : list (pt2 F))
    (matches : list (DMatch F * DMatch F)) pa pb ca cb pa' pb' ca' cb' :
  collect img1 img2 kp1 kp2 (combine matches (matchesMask matches))
    (pa, pb, ca, cb) = inr (pa', pb', ca', cb') ->
  exists na nb nca ncb,
    pa' = pa ++ na /\ pb' = pb ++ nb /\ ca' = ca ++ nca /\ cb' = cb ++ ncb /\
    map Some na = map (fun mn => nth_error kp1 (queryIdx (fst mn)))
                      (filter passes_ratio_test matches) /\
    map Some nb = map (fun mn => nth_error kp2 (trainIdx (fst mn)))
                      (filter passes_ratio_test matches) /\
    Forall2 (fun p c => pixel img1 (to_int (snd p)) (to_int (fst p)) = inr c)
            na nca /\
    Forall2 (fun p c => pixel img2 (to_int (snd p)) (to_int (fst p)) = inr c)
            nb ncb.
Proof.
  revert pa pb ca cb. induction matches as [| [m n] rest IH];
    intros pa pb ca cb H; simpl in H.
  - injection H as <- <- <- <-. exists [], [], [], [].
    rewrite !app_nil_r. simpl. repeat split; constructor.
  - cbn [filter map]. unfold matchesMask in H. cbn [map combine collect fst snd] in H.
    fold (matchesMask rest) in H.
    change (fltb (distance m) (fmul (dec 7 10) (distance n)))
      with (passes_ratio_test (m, n)) in H.
    destruct (passes_ratio_test (m, n)); cbn [fst Z.eqb Pos.eqb] in H.
    + unfold list_get in H.
      destruct (nth_error kp1 (queryIdx m)) as [point_a |] eqn:Ea;
        [| discriminate].
      destruct (nth_error kp2 (trainIdx m)) as [point_b |] eqn:Eb;
        [| discriminate].
      simpl in H.
      destruct (pixel img1 (to_int (snd point_a)) (to_int (fst point_a)))
        as [e | color_a] eqn:Eca; [discriminate |].
      destruct (pixel img2 (to_int (snd point_b)) (to_int (fst point_b)))
        as [e | color_b] eqn:Ecb; [discriminate |].
      simpl in H.
      destruct (IH _ _ _ _ H)
        as (na & nb & nca & ncb & -> & -> & -> & -> & Ha & Hb & Hca & Hcb).
      exists (point_a :: na), (point_b :: nb), (color_a :: nca), (color_b :: ncb).
      rewrite <- !app_assoc. cbn [map fst snd app].
      repeat split; try congruence; constructor; auto.
    + apply IH. exact H.
Qed.

(** X4.  When [get_matches] returns arrays, both images were read and it
    printed nothing; the coordinate arrays hold, in scan order, the key
    points of exactly the matches whose best distance is below 0.7 times
    the second-best distance, the colour arrays hold the pixels sampled at
    those coordinates (row = int(y), column = int(x)), and the four arrays
    have one length. *)
Theorem get_matches_keeps_ratio_test_matches (path1 path2 : string)
    (out out' : stdout F) pa pb ca cb :
  get_matches path1 path2 out = (inr (Some (pa, pb, ca, cb)), out') ->
  out' = out /\
  parallel (pa, pb, ca, cb) /\
  exists img1 img2 kp1 des1 kp2 des2 matches,
    imread path1 = Some img1 /\ imread path2 = Some img2 /\
    detectAndCompute img1 = inr (kp1, des1) /\
    detectAndCompute img2 = inr (kp2, des2) /\
    knnMatch des1 des2 = inr matches /\
    map Some pa = map (fun mn => nth_error kp1 (queryIdx (fst mn)))
                      (filter passes_ratio_test matches) /\
    map Some pb = map (fun mn => nth_error kp2 (trainIdx (fst mn)))
                      (filter passes_ratio_test matches) /\
    Forall2 (fun p c => pixel img1 (to_int (snd p)) (to_int (fst p)) = inr c)
            pa ca /\
    Forall2 (fun p c => pixel img2 (to_int (snd p)) (to_int (fst p)) = inr c)
            pb cb.
Proof.
  intros H.
  destruct (get_matches_parallel _ _ _ _ H) as [Hpar ->].
  split; [reflexivity |]. split; [exact Hpar |].
  unfold get_matches in H.
  destruct (imread path1) as [img1 |]; destruct (imread path2) as [img2 |];
    try (unfold mbind, print, mret in H; simpl in H; discriminate).
  apply lift_inr in H as [H _].
  step_in H. destruct a as [kp1 des1].
  step_in H. destruct a as [kp2 des2].
  do 2 step_in H. injection H as ->.
  apply collect_appends in E2
    as (na & nb & nca & ncb & -> & -> & -> & -> & Ha & Hb & Hca & Hcb).
  exists img1, img2, kp1, des1, kp2, des2, a.
  simpl. repeat split; assumption.
Qed.

End MatcherMore.

Lemma get_matches_keeps_ratio_test_matches_witness :
  let cv := scripted (F := float) (fun _ => true) 1%float in
  let pa := [(1, 1); (2, 5)]%float in
  let pb := [(1, 1); (3, 7)]%float in
  let ca := [(10, 20, 30); (10, 20, 30)]%Z in
  let cb := [(10, 20, 30); (10, 20, 30)]%Z in
  @nil (list (printed float)) = [] /\
  parallel (pa, pb, ca, cb) /\
  exists img1 img2 kp1 des1 kp2 des2 matches,
    imread (CV := cv) "./Assets/0000.jpg" = Some img1 /\
    imread (CV := cv) "./Assets/0001.jpg" = Some img2 /\
    detectAndCompute img1 = inr (kp1, des1) /\
    detectAndCompute img2 = inr (kp2, des2) /\
    knnMatch des1 des2 = inr matches /\
    map Some pa = map (fun mn => nth_error kp1 (queryIdx (fst mn)))
                      (filter passes_ratio_test matches) /\
    map Some pb = map (fun mn => nth_error kp2 (trainIdx (fst mn)))
                      (filter passes_ratio_test matches) /\
    Forall2 (fun p c => pixel img1 (to_int (snd p)) (to_int (fst p)) = inr c)
            pa ca /\
    Forall2 (fun p c => pixel img2 (to_int (snd p)) (to_int (fst p)) = inr c)
            pb cb.
Proof.
  intros cv pa pb ca cb.
  refine (@get_matches_keeps_ratio_test_matches float float64 cv
            "./Assets/0000.jpg" "./Assets/0001.jpg" [] [] pa pb ca cb _).
  vm_compute. reflexivity.
Defined.

(** ** More on pose registration *)

Lemma take_rows_error {A} (arr : list A) (idx : list nat) e :
  take_rows arr idx = inl e ->
  e = IndexError /\ ~ Forall (fun i => (i < List.length arr)%nat) idx.
Proof.
  induction idx as [| i rest IH]; simpl; intros H; [discriminate |].
  destruct (nth_error arr i) eqn:Ei.
  - destruct (take_rows arr rest) as [e' | l]; [| discriminate].
    injection H as <-. destruct (IH eq_refl) as [-> Hn].
    split; [reflexivity |]. intros HF. inversion HF; auto.
  - injection H as <-. split; [reflexivity |].
    intros HF. inversion HF; subst. apply nth_error_None in Ei. lia.
Qed.

Section RegistrarMore.

Context {F : Type} {D : Dtype F} (cv : CV F).

(** X5.  Once the solver has returned an inlier list and the axis-angle
    conversion a matrix, the registrar returns exactly when every listed
    index is a row of the 2D points, of the 3D points and of the auxiliary
    vector; otherwise it raises IndexError. *)
Theorem PnP_returns_iff_inliers_are_rows {A : Type}
    (obj_point : list (vec3 F)) (image_point : list (pt2 F)) (Km : mat33 F)
    (rot_vector : list A) retval rvec tvec idx rot_matrix :
  solvePnPRansac obj_point image_point Km = inr (retval, rvec, tvec, Some idx) ->
  Rodrigues rvec = inr rot_matrix ->
  ((exists r, PnP obj_point image_point Km rot_vector = inr r) <->
   Forall (fun i => (i < List.length image_point)%nat /\
                    (i < List.length obj_point)%nat /\
                    (i < List.length rot_vector)%nat) idx) /\
  ((forall r, PnP obj_point image_point Km rot_vector <> inr r) ->
   PnP obj_point image_point Km rot_vector = inl IndexError).
Proof.
  intros Hs Hr.
  assert (Hpnp : PnP obj_point image_point Km rot_vector =
            rbind (take_rows image_point idx) (fun ip =>
            rbind (take_rows obj_point idx) (fun op =>
            rbind (take_rows rot_vector idx) (fun rv =>
            inr (rot_matrix, tvec, ip, op, rv))))).
  { unfold PnP. rewrite Hs. simpl. rewrite Hr. reflexivity. }
  rewrite Hpnp. split; [split |].
  - intros (r & H).
    destruct (take_rows image_point idx) as [e | ip] eqn:E1; [discriminate |].
    destruct (take_rows obj_point idx) as [e | op] eqn:E2; [discriminate |].
    destruct (take_rows rot_vector idx) as [e | rv] eqn:E3; [discriminate |].
    apply Forall_forall. intros i Hi. apply In_nth_error in Hi as (k & Hk).
    pose proof (take_rows_nth _ _ E1 _ Hk) as N1.
    pose proof (take_rows_nth _ _ E2 _ Hk) as N2.
    pose proof (take_rows_nth _ _ E3 _ Hk) as N3.
    assert (Hk' : (k < List.length idx)%nat) by (apply nth_error_Some; congruence).
    repeat split; apply nth_error_Some.
    + rewrite <- N1. apply nth_error_Some.
      rewrite (take_rows_length _ _ E1). exact Hk'.
    + rewrite <- N2. apply nth_error_Some.
      rewrite (take_rows_length _ _ E2). exact Hk'.
    + rewrite <- N3. apply nth_error_Some.
      rewrite (take_rows_length _ _ E3). exact Hk'.
  - intros HF.
    destruct (take_rows_total image_point (idx := idx)) as (ip & ->).
    { eapply Forall_impl; [| exact HF]. simpl. tauto. }
    destruct (take_rows_total obj_point (idx := idx)) as (op & ->).
    { eapply Forall_impl; [| exact HF]. simpl. tauto. }
    destruct (take_rows_total rot_vector (idx := idx)) as (rv & ->).
    { eapply Forall_impl; [| exact HF]. simpl. tauto. }
    simpl. eauto.
  - intros Hno.
    destruct (take_rows image_point idx) as [e | ip] eqn:E1.
    { apply take_rows_error in E1 as [-> _]. reflexivity. }
    destruct (take_rows obj_point idx) as [e | op] eqn:E2.
    { apply take_rows_error in E2 as [-> _]. reflexivity. }
    destruct (take_rows rot_vector idx) as [e | rv] eqn:E3.
    { apply take_rows_error in E3 as [-> _]. reflexivity. }
    exfalso. eapply Hno. reflexivity.
Qed.

End RegistrarMore.

Lemma PnP_returns_iff_inliers_are_rows_witness :
  let cv := scripted (F := float) (fun _ => true) 1%float in
  ((exists r, PnP (cv := cv) [(0, 0, 1); (1, 0, 1)]%float
                 [(0, 0); (1, 0)]%float K (@nil nat) = inr r) <->
   Forall (fun i => (i < 2)%nat /\ (i < 2)%nat /\ (i < 0)%nat) [0%nat]) /\
  ((forall r, PnP (cv := cv) [(0, 0, 1); (1, 0, 1)]%float
                 [(0, 0); (1, 0)]%float K (@nil nat) <> inr r) ->
   PnP (cv := cv) [(0, 0, 1); (1, 0, 1)]%float
       [(0, 0); (1, 0)]%float K (@nil nat) = inl IndexError).
Proof.
  intros cv.
  exact (@PnP_returns_iff_inliers_are_rows float cv nat
           [(0, 0, 1); (1, 0, 1)]%float [(0, 0); (1, 0)]%float K []
           true (0, 0, 0)%float (0, 0, 1)%float [0%nat] eye3
           eq_refl eq_refl).
Defined.

(** ** More in real arithmetic *)

Section RealMore.

Local Open Scope R_scope.

Lemma Rsum_nonneg (ds : list R) :
  Forall (fun d => 0 <= d) ds -> 0 <= Rsum ds.
Proof. induction 1; simpl; lra. Qed.

Lemma Rsum_zero (ds : list R) :
  Forall (fun d => 0 <= d) ds ->
  Rsum ds = 0 -> Forall (fun d => d = 0) ds.
Proof.
  induction 1 as [| d ds Hd Hds IH]; simpl; intros H; constructor.
  - pose proof (Rsum_nonneg Hds). lra.
  - apply IH. pose proof (Rsum_nonneg Hds). lra.
Qed.

Lemma distance2_zero (pq : pt2 R * pt2 R) :
  distance2 pq = 0 <-> fst pq = snd pq.
Proof.
  destruct pq as [[u v] [u' v']]. simpl.
  pose proof (Rle_0_sqr (u - u')) as Hu. pose proof (Rle_0_sqr (v - v')) as Hv.
  unfold Rsqr in Hu, Hv. split.
  - intros H. apply sqrt_eq_0 in H; [| lra].
    assert ((u - u') * (u - u') = 0) as H1 by lra.
    assert ((v - v') * (v - v') = 0) as H2 by lra.
    apply Rmult_integral in H1. apply Rmult_integral in H2.
    f_equal; lra.
  - intros H. injection H as <- <-.
    replace ((u - u) * (u - u) + (v - v) * (v - v)) with 0 by ring.
    apply sqrt_0.
Qed.

Lemma combine_fst_snd_eq {A} (a b : list A) :
  List.length a = List.length b ->
  Forall (fun pq => fst pq = snd pq) (combine a b) -> a = b.
Proof.
  revert b. induction a as [| x a IH]; intros [| y b] Hlen H;
    simpl in *; try discriminate; [reflexivity |].
  inversion H; subst. simpl in *. f_equal; [assumption |].
  apply IH; [congruence | assumption].
Qed.

Lemma reprojection_error_value (cv : CV R) (obj_points : obj_points_arg)
    (image_points : list (pt2 R)) (transform_matrix : mat34 R) (Km : mat33 R)
    rot_vector obj_points' image_points_calc :
  RodriguesMat (sub33 transform_matrix) = inr rot_vector ->
  cartesian_points obj_points = inr obj_points' ->
  projectPoints obj_points' rot_vector (col3 transform_matrix) Km =
    inr image_points_calc ->
  List.length image_points_calc = List.length image_points ->
  image_points_calc <> [] ->
  reprojection_error obj_points image_points transform_matrix Km =
  inr (R_sqrt.sqrt
         (Rsum (map (fun pq => distance2 pq * distance2 pq)
                    (combine image_points_calc image_points))) /
       INR (List.length image_points_calc), obj_points').
Proof.
  intros Hrod Hobj Hproj Hlen Hne. unfold reprojection_error, rbind.
  rewrite Hrod. cbv beta iota. rewrite Hobj. cbv beta iota.
  rewrite Hproj. cbv beta iota. rewrite (norm_L2_real _ _ Hlen).
  cbn [fdiv of_Z real]. rewrite <- INR_IZR_INZ.
  destruct (List.length image_points_calc) eqn:El; [| reflexivity].
  destruct image_points_calc; [congruence | discriminate].
Qed.

(** X7.  In real arithmetic, for a non-empty set of points with as many
    observations, the value the evaluator returns is never negative, and
    it is zero exactly when every projected point is its observed point. *)
Theorem reprojection_error_zero_iff_exact (cv : CV R)
    (obj_points : obj_points_arg) (image_points : list (pt2 R))
    (transform_matrix : mat34 R) (Km : mat33 R)
    rot_vector obj_points' image_points_calc :
  RodriguesMat (sub33 transform_matrix) = inr rot_vector ->
  cartesian_points obj_points = inr obj_points' ->
  projectPoints obj_points' rot_vector (col3 transform_matrix) Km =
    inr image_points_calc ->
  List.length image_points_calc = List.length image_points ->
  image_points_calc <> [] ->
  exists e,
    reprojection_error obj_points image_points transform_matrix Km =
      inr (e, obj_points') /\
    0 <= e /\
    (e = 0 <-> image_points_calc = image_points).
Proof.
  intros Hrod Hobj Hproj Hlen Hne.
  eexists. split; [eapply reprojection_error_value; eassumption |].
  set (sq := map (fun pq => distance2 pq * distance2 pq)
                 (combine image_points_calc image_points)).
  assert (Hsq : Forall (fun d => 0 <= d) sq).
  { apply Forall_forall. intros d Hd. apply in_map_iff in Hd as (pq & <- & _).
    pose proof (distance2_nonneg pq). nra. }
  assert (Hpos : 0 < INR (List.length image_points_calc)).
  { apply lt_0_INR. destruct image_points_calc; [congruence | simpl; lia]. }
  split.
  - apply Rmult_le_pos; [apply sqrt_pos |].
    left. apply Rinv_0_lt_compat. exact Hpos.
  - split.
    + intros H0.
      assert (Hs : R_sqrt.sqrt (Rsum sq) = 0).
      { unfold Rdiv in H0. apply Rmult_integral in H0 as [H0 | H0];
          [exact H0 |].
        pose proof (Rinv_0_lt_compat _ Hpos). lra. }
      apply sqrt_eq_0 in Hs; [| apply Rsum_nonneg; exact Hsq].
      pose proof (Rsum_zero Hsq Hs) as Hall.
      apply combine_fst_snd_eq; [exact Hlen |].
      apply Forall_forall. intros pq Hin. apply distance2_zero.
      rewrite Forall_forall in Hall.
      assert (Hd : distance2 pq * distance2 pq = 0).
      { apply Hall. unfold sq. apply in_map_iff. exists pq. auto. }
      apply Rmult_integral in Hd. tauto.
    + intros Heq.
      assert (Hz : Rsum sq = 0).
      { unfold sq. rewrite Heq. clear.
        induction image_points as [| p l IH]; [reflexivity |].
        cbn [combine map]. unfold Rsum in *. cbn [fold_right]. rewrite IH.
        assert (distance2 (p, p) = 0) as -> by (apply distance2_zero; reflexivity).
        ring. }
      rewrite Hz, sqrt_0. unfold Rdiv. ring.
Qed.

Lemma reprojection_error_zero_iff_exact_witness :
  exists e,
    reprojection_error (cv := scripted (fun _ => true) 1)
      (Cartesian [(3, 0, 1); (4, 0, 1)]) [(3, 0); (4, 0)]
      transform_matrix_0 K = inr (e, [(3, 0, 1); (4, 0, 1)]) /\
    0 <= e /\
    (e = 0 <-> [(3, 0); (4, 0)] = [(3, 0); (4, 0)]).
Proof.
  refine (@reprojection_error_zero_iff_exact
            (scripted (fun _ => true) 1)
            (Cartesian [(3, 0, 1); (4, 0, 1)]) [(3, 0); (4, 0)]
            transform_matrix_0 K (0, 0, 0) [(3, 0, 1); (4, 0, 1)]
            [(3, 0); (4, 0)] eq_refl eq_refl eq_refl eq_refl _).
  discriminate.
Defined.

Lemma scale_div (s x t : R) : s <> 0 -> t <> 0 -> s * x / (s * t) = x / t.
Proof. intros. field. auto. Qed.

Lemma div_self (t : R) : t <> 0 -> t / t = 1.
Proof. intros. field. auto. Qed.

(** X8.  In real arithmetic, column by column: a solution column
    s.(x, y, z, t) with s and t not zero comes out as (x/t, y/t, z/t, 1),
    whatever the other columns are; so its 4th coordinate is 1 and the
    point returned does not depend on the scale s of the homogeneous
    solution. *)
Theorem triangulation_normalises (cv : CV R) (P1 P2 : mat34 R)
    (a b : list (pt2 R)) (pt_cloud : list (vec4 R)) (k : nat)
    (x y z t s : R) :
  triangulatePoints P1 P2 a b = inr pt_cloud ->
  nth_error pt_cloud k = Some (s * x, s * y, s * z, s * t) ->
  s <> 0 -> t <> 0 ->
  exists out,
    triangulation P1 P2 a b = inr (a, b, out) /\
    List.length out = List.length pt_cloud /\
    nth_error out k = Some (x / t, y / t, z / t, 1).
Proof.
  intros H Hk Hs Ht. exists (map normalise pt_cloud).
  unfold triangulation. rewrite H. simpl.
  split; [reflexivity |]. split; [apply length_map |].
  rewrite nth_error_map, Hk. simpl.
  rewrite !scale_div by assumption. rewrite (div_self Ht). reflexivity.
Qed.

Lemma triangulation_normalises_witness :
  exists out,
    triangulation (cv := scripted (fun _ => true) 2)
      transform_matrix_0 transform_matrix_0 [(4, 6); (1, 1)] [(4, 6); (1, 1)] =
      inr ([(4, 6); (1, 1)], [(4, 6); (1, 1)], out) /\
    List.length out = 2%nat /\
    nth_error out 0 = Some (2 / 1, 3 / 1, (1 / 2) / 1, 1).
Proof.
  refine (@triangulation_normalises (scripted (fun _ => true) 2)
            transform_matrix_0 transform_matrix_0 [(4, 6); (1, 1)]
            [(4, 6); (1, 1)] [(4, 6, 1, 2); (1, 1, 1, 2)] 0
            2 3 (1 / 2) 1 2 eq_refl _ _ _).
  - simpl. do 2 f_equal; [do 2 f_equal |]; lra.
  - lra.
  - lra.
Defined.

End RealMore.

(** ** The 4th coordinate in binary64 *)

Lemma div_eucl_mul (m : positive) :
  Z.div_eucl (Z.shiftl (Zpos m) 53) (Zpos m) = (2 ^ 53, 0)%Z.
Proof.
  rewrite Z.shiftl_mul_pow2 by lia.
  assert (H : forall a b, Z.div_eucl a b = (a / b, a mod b)%Z).
  { intros a b. unfold Z.div, Z.modulo. destruct (Z.div_eucl a b).
    reflexivity. }
  rewrite H, (Z.mul_comm (Zpos m)), Z.div_mul, Z.mod_mul by lia.
  reflexivity.
Qed.

(** IEEE division of a finite non-zero value by itself is exactly 1: the
    quotient of the mantissas is computed exactly and needs no
    rounding. *)
Lemma div_self_float (w : float) :
  is_finite_nonzero w = true -> PrimFloat.div w w = 1%float.
Proof.
  unfold is_finite_nonzero.
  destruct (Prim2SF w) as [| | | s m e] eqn:Hw; try discriminate. intros _.
  rewrite <- (SF2Prim_Prim2SF (PrimFloat.div w w)).
  rewrite div_spec, Hw.
  unfold SF64div, SFdiv, SFdiv_core_binary.
  set (d := (Zdigits2 (Z.pos m) + e)%Z).
  assert (Hd : (d - d = 0)%Z) by lia.
  rewrite Hd. clear Hd d.
  rewrite !Z.sub_diag.
  change (0 - Z.min (fexp prec emax 0) 0)%Z with 53%Z.
  change (Z.min (fexp prec emax 0) 0)%Z with (-53)%Z.
  cbv iota beta zeta.
  rewrite div_eucl_mul.
  assert (Hl : new_location (Zpos m) 0 = loc_Exact).
  { unfold new_location. destruct (Z.even (Zpos m)); reflexivity. }
  rewrite Hl.
  replace (xorb s s) with false by (destruct s; reflexivity).
  vm_compute. reflexivity.
Qed.

(** Of a zero, an infinity or NaN by itself it is NaN. *)
Lemma div_self_nan (w : float) :
  is_finite_nonzero w = false -> isnan (PrimFloat.div w w) = true.
Proof.
  unfold is_finite_nonzero, isnan. rewrite div_spec.
  destruct (Prim2SF w); try discriminate; reflexivity.
Qed.

(** X20.  In binary64, column by column: the column (x, y, z, t) of the
    solution comes out as (x/t, y/t, z/t, t'), where t' is exactly 1 when
    t is finite and not a zero, and NaN when t is a zero, an infinity or
    NaN. *)
Theorem triangulation_fourth_coordinate (cv : CV float) (P1 P2 : mat34 float)
    (a b : list (pt2 float)) (pt_cloud : list (vec4 float)) (k : nat)
    (x y z t : float) :
  triangulatePoints P1 P2 a b = inr pt_cloud ->
  nth_error pt_cloud k = Some (x, y, z, t) ->
  exists out t',
    triangulation P1 P2 a b = inr (a, b, out) /\
    nth_error out k =
      Some (PrimFloat.div x t, PrimFloat.div y t, PrimFloat.div z t, t') /\
    (if is_finite_nonzero t then t' = 1%float else isnan t' = true).
Proof.
  intros H Hk. exists (map normalise pt_cloud), (PrimFloat.div t t).
  unfold triangulation. rewrite H. simpl.
  split; [reflexivity |]. split.
  - rewrite nth_error_map, Hk. reflexivity.
  - destruct (is_finite_nonzero t) eqn:Ht.
    + apply div_self_float. exact Ht.
    + apply div_self_nan. exact Ht.
Qed.

Lemma triangulation_fourth_coordinate_witness :
  exists out t',
    triangulation (cv := scripted (fun _ => true) 3%float)
      transform_matrix_0 transform_matrix_0
      [(4, 6)%float; (1, 1)%float] [(4, 6)%float; (1, 1)%float] =
      inr ([(4, 6)%float; (1, 1)%float], [(4, 6)%float; (1, 1)%float], out) /\
    nth_error out 1 =
      Some (PrimFloat.div 1 3, PrimFloat.div 1 3, PrimFloat.div 1 3, t') /\
    t' = 1%float.
Proof.
  exact (@triangulation_fourth_coordinate (scripted (fun _ => true) 3%float)
           transform_matrix_0 transform_matrix_0
           [(4, 6)%float; (1, 1)%float] [(4, 6)%float; (1, 1)%float]
           [(4, 6, 1, 3)%float; (1, 1, 1, 3)%float] 1
           1%float 1%float 1%float 3%float eq_refl eq_refl).
Defined.

(** ** More on the export *)

Section ExportMore.

Context {F : Type} {D : Dtype F}.

Lemma select_length_le {A} (l : list A) (mask : list bool) :
  (List.length (select l mask) <= List.length l)%nat.
Proof.
  revert mask. unfold select.
  induction l as [| a l IH]; intros [| b mask]; simpl; try lia.
  specialize (IH mask). destruct b; simpl; lia.
Qed.

(** X9.  The exporter checks nothing but the row counts: it raises
    ValueError when points and colours differ in number, and otherwise
    writes res/point_cloud.ply under the given directory, with a header
    that declares the number of lines written, which is at most the
    number of points given; for the empty cloud it writes the header
    declaring 0 vertices and no line. *)
Theorem to_ply_shape_check (path : string) (point_cloud : list (vec3 F))
    (colors : list color) :
  (List.length point_cloud <> List.length colors ->
   to_ply path point_cloud colors = inl ValueError) /\
  (List.length point_cloud = List.length colors ->
   exists f,
     to_ply path point_cloud colors = inr f /\
     file_name f = path_join (path_join path "res") "point_cloud.ply" /\
     header f = ply_header (List.length (data_lines f)) /\
     (List.length (data_lines f) <= List.length point_cloud)%nat) /\
  to_ply path [] [] =
    inr {| file_name := path_join (path_join path "res") "point_cloud.ply";
           header := ply_header 0;
           data_lines := [] |}.
Proof.
  split; [| split].
  - intros Hne. unfold to_ply, retained, hstack_verts, out_points, out_colors.
    rewrite !length_map.
    destruct (Nat.eqb_spec (List.length point_cloud) (List.length colors));
      [contradiction | reflexivity].
  - intros Hlen.
    destruct (retained_select point_cloud colors Hlen) as [_ Hret].
    unfold to_ply. rewrite Hret. simpl. eexists. split; [reflexivity |].
    simpl. rewrite length_map. repeat split.
    etransitivity; [apply select_length_le |].
    rewrite length_map, length_combine. unfold out_points, out_colors.
    rewrite !length_map. lia.
  - reflexivity.
Qed.

End ExportMore.

Lemma out_color_mod (c : Z) : out_color c = ((- c) mod 256)%Z.
Proof.
  unfold out_color, astype_uint8, wrap_int64.
  rewrite Zminus_mod.
  rewrite (Z.mod_mod_divide _ (2 ^ 64) 256) by (exists (2 ^ 56)%Z; reflexivity).
  change ((2 ^ 63) mod 256)%Z with 0%Z. rewrite Z.sub_0_r, Z.mod_mod by lia.
  rewrite Zplus_mod. change ((2 ^ 63) mod 256)%Z with 0%Z.
  rewrite Z.add_0_r, Z.mod_mod by lia.
  replace (c * 255)%Z with (- c + c * 256)%Z by ring.
  apply Z.mod_add. lia.
Qed.

(** X10.  Whatever integer a colour channel holds, the byte computed for
    it is (-c) mod 256, a value in 0..255; and on a byte the computation is
    its own inverse, so applying it to an exported byte gives the sample
    back. *)
Theorem out_color_is_a_byte_and_involutive (c : Z) :
  out_color c = ((- c) mod 256)%Z /\
  is_byte (out_color c) /\
  out_color (out_color (out_color c)) = out_color c /\
  (is_byte c -> out_color (out_color c) = c).
Proof.
  assert (Hb : is_byte (out_color c)).
  { rewrite out_color_mod. unfold is_byte.
    pose proof (Z.mod_pos_bound (- c) 256 ltac:(lia)). lia. }
  assert (Hinv : forall b, is_byte b -> out_color (out_color b) = b).
  { intros b [H0 H1]. rewrite !out_color_mod.
    destruct (Z.eq_dec b 0) as [-> | Hnz]; [reflexivity |].
    rewrite (Z.mod_opp_l_nz b 256) by (rewrite ?Z.mod_small; lia).
    rewrite (Z.mod_small b 256) by lia.
    rewrite (Z.mod_opp_l_nz (256 - b) 256) by (rewrite ?Z.mod_small; lia).
    rewrite (Z.mod_small (256 - b) 256) by lia. lia. }
  split; [apply out_color_mod |]. split; [exact Hb |].
  split; [apply Hinv; exact Hb | apply Hinv].
Qed.

(** *** Non-finite coordinates in the export (binary64)

    A NaN or an infinity among the coordinates reaches every distance:
    the mean of its column is not finite, so every centred point has a
    coordinate that is not finite and every distance is NaN or the
    positive infinity, which is below no threshold. *)

Ltac sf_finish :=
  simpl; try discriminate;
  repeat match goal with
         | |- context [if ?b then _ else _] => destruct b; simpl
         | |- context [Bool.eqb ?a ?b] => destruct a, b; simpl
         | |- context [xorb ?a ?b] => destruct a, b; simpl
         end;
  auto.

Lemma add_non_finite_l x y : is_finite x = false -> is_finite (x + y) = false.
Proof.
  unfold is_finite. rewrite add_spec.
  destruct (Prim2SF x), (Prim2SF y); sf_finish.
Qed.

Lemma add_non_finite_r x y : is_finite y = false -> is_finite (x + y) = false.
Proof.
  unfold is_finite. rewrite add_spec.
  destruct (Prim2SF x), (Prim2SF y); sf_finish.
Qed.

Lemma mul_non_finite_l x y : is_finite x = false -> is_finite (x * y) = false.
Proof.
  unfold is_finite. rewrite mul_spec.
  destruct (Prim2SF x), (Prim2SF y); sf_finish.
Qed.

Lemma div_non_finite_l x y : is_finite x = false -> is_finite (x / y) = false.
Proof.
  unfold is_finite. rewrite div_spec.
  destruct (Prim2SF x), (Prim2SF y); sf_finish.
Qed.

Lemma sub_non_finite_r x y : is_finite y = false -> is_finite (x - y) = false.
Proof.
  unfold is_finite. rewrite sub_spec.
  destruct (Prim2SF x), (Prim2SF y); sf_finish.
Qed.

Lemma square_non_finite x : is_finite x = false -> nan_or_pinf (x * x).
Proof.
  unfold is_finite, nan_or_pinf. rewrite mul_spec.
  destruct (Prim2SF x) as [| [|] | |]; sf_finish.
Qed.

Lemma add_nan_or_pinf_l x y : nan_or_pinf x -> nan_or_pinf (x + y).
Proof.
  unfold nan_or_pinf. rewrite add_spec.
  intros [-> | ->]; destruct (Prim2SF y) as [| [|] | |]; sf_finish.
Qed.

Lemma add_nan_or_pinf_r x y : nan_or_pinf y -> nan_or_pinf (x + y).
Proof.
  unfold nan_or_pinf. rewrite add_spec.
  intros [-> | ->]; destruct (Prim2SF x) as [| [|] | |]; sf_finish.
Qed.

Lemma sqrt_nan_or_pinf x : nan_or_pinf x -> nan_or_pinf (PrimFloat.sqrt x).
Proof.
  unfold nan_or_pinf. rewrite sqrt_spec. intros [-> | ->]; sf_finish.
Qed.

Lemma ltb_nan_or_pinf x y : nan_or_pinf x -> PrimFloat.ltb x y = false.
Proof.
  unfold nan_or_pinf. rewrite ltb_spec.
  intros [-> | ->]; destruct (Prim2SF y) as [| [|] | |]; reflexivity.
Qed.

Lemma fold_left_add_non_finite (l : list float) (acc : float) :
  is_finite acc = false \/ Exists (fun x => is_finite x = false) l ->
  is_finite (fold_left (fadd (F := float)) l acc) = false.
Proof.
  revert acc. induction l as [| x l IH]; intros acc [H | H]; simpl.
  - exact H.
  - inversion H.
  - apply IH. left. apply add_non_finite_l. exact H.
  - apply IH. inversion H; subst.
    + left. apply add_non_finite_r. assumption.
    + right. assumption.
Qed.

Lemma np_mean_non_finite (l : list float) :
  Exists (fun x => is_finite x = false) l -> is_finite (np_mean l) = false.
Proof.
  intros H. unfold np_mean. apply div_non_finite_l.
  apply fold_left_add_non_finite. right. exact H.
Qed.

Lemma has_non_finite_cases (p : vec3 float) :
  has_non_finite p = true ->
  is_finite (fst (fst p)) = false \/ is_finite (snd (fst p)) = false \/
  is_finite (snd p) = false.
Proof.
  destruct p as [[x y] z]. simpl.
  destruct (is_finite x), (is_finite y), (is_finite z); simpl; auto;
    discriminate.
Qed.

Lemma mean_axis0_non_finite (pts : list (vec3 float)) (p : vec3 float) :
  In p pts -> has_non_finite p = true ->
  has_non_finite (mean_axis0 pts) = true.
Proof.
  intros Hin Hp. apply has_non_finite_cases in Hp.
  unfold mean_axis0, has_non_finite.
  assert (Hex : forall f : float * float * float -> float,
            is_finite (f p) = false ->
            is_finite (np_mean (map f pts)) = false).
  { intros f Hf. apply np_mean_non_finite. apply Exists_exists.
    exists (f p). split; [apply in_map; exact Hin | exact Hf]. }
  destruct Hp as [H | [H | H]].
  - rewrite (Hex (fun p => fst (fst p)) H). reflexivity.
  - rewrite (Hex (fun p => snd (fst p)) H).
    rewrite andb_false_r. reflexivity.
  - rewrite (Hex snd H). rewrite andb_false_r. reflexivity.
Qed.

Lemma norm3_centre_non_finite (mean p : vec3 float) :
  has_non_finite mean = true -> nan_or_pinf (norm3 (centre mean p)).
Proof.
  intros H. apply has_non_finite_cases in H.
  destruct mean as [[mx my] mz], p as [[x y] z]. simpl in H.
  unfold centre, norm3. cbn [fadd fsub fmul fsqrt float64].
  apply sqrt_nan_or_pinf.
  destruct H as [H | [H | H]].
  - apply add_nan_or_pinf_l, add_nan_or_pinf_l, square_non_finite,
      sub_non_finite_r, H.
  - apply add_nan_or_pinf_l, add_nan_or_pinf_r, square_non_finite,
      sub_non_finite_r, H.
  - apply add_nan_or_pinf_r, square_non_finite, sub_non_finite_r, H.
Qed.

Lemma np_where_none (dist : list float) (thr : float) (i : nat) :
  Forall nan_or_pinf dist ->
  np_where (map (fun d => fltb d thr) dist) i = [].
Proof.
  intros H. revert i. induction H as [| d dist Hd _ IH]; intros i; simpl.
  - reflexivity.
  - rewrite (ltb_nan_or_pinf thr Hd). apply IH.
Qed.

Lemma hstack_verts_points (pts : list (vec3 float)) (cols : list color) verts :
  hstack_verts pts cols = inr verts -> map fst verts = pts.
Proof.
  unfold hstack_verts.
  destruct (Nat.eqb_spec (List.length pts) (List.length cols)) as [L |];
    [| discriminate].
  intros H. injection H as <-. revert cols L.
  induction pts as [| p pts IH]; intros [| c cols] L; simpl in *;
    try discriminate; [reflexivity |].
  f_equal.
  - unfold hstack_row. simpl. destruct c as [[c0 c1] c2]. reflexivity.
  - apply IH. lia.
Qed.

Lemma scale200_non_finite (p : vec3 float) :
  has_non_finite p = true -> has_non_finite (scale200 p) = true.
Proof.
  intros H. apply has_non_finite_cases in H.
  destruct p as [[x y] z]. simpl in H. unfold scale200, has_non_finite.
  cbn [fmul float64].
  destruct H as [H | [H | H]];
    rewrite (mul_non_finite_l _ _ H); rewrite ?andb_false_r; reflexivity.
Qed.

(** X11.  In binary64, with as many colours as points: when some
    coordinate of some point of the cloud is NaN or infinite, nothing is
    exported; the file holds the header, declaring 0 vertices, and no
    data line. *)
Theorem to_ply_non_finite_point_empties_export (path : string)
    (point_cloud : list (vec3 float)) (colors : list color) (p : vec3 float) :
  List.length point_cloud = List.length colors ->
  In p point_cloud ->
  has_non_finite p = true ->
  to_ply path point_cloud colors =
  inr {| file_name := path_join (path_join path "res") "point_cloud.ply";
         header := ply_header 0;
         data_lines := [] |}.
Proof.
  intros L Hin Hp.
  unfold to_ply, retained, rbind.
  destruct (hstack_verts (out_points point_cloud) (out_colors colors))
    as [e | verts] eqn:Hv.
  { unfold hstack_verts, out_points, out_colors in Hv.
    rewrite !length_map, L, Nat.eqb_refl in Hv. discriminate. }
  assert (Hd : Forall nan_or_pinf (distances verts)).
  { unfold distances. apply Forall_forall. intros d Hd.
    apply in_map_iff in Hd as (v & <- & _).
    apply norm3_centre_non_finite.
    rewrite (hstack_verts_points _ _ Hv).
    apply (mean_axis0_non_finite _ (scale200 p)).
    - unfold out_points. apply in_map. exact Hin.
    - apply scale200_non_finite. exact Hp. }
  unfold within. rewrite (np_where_none _ _ Hd). reflexivity.
Qed.

Lemma to_ply_non_finite_point_empties_export_witness :
  to_ply "./Assets" [(1, 2, 3)%float; (nan, 0, 0)%float; (4, 5, 6)%float]
         [(10, 20, 30)%Z; (10, 20, 30)%Z; (10, 20, 30)%Z] =
  inr {| file_name := "./Assets/res/point_cloud.ply";
         header := ply_header 0;
         data_lines := [] |}.
Proof.
  exact (@to_ply_non_finite_point_empties_export "./Assets"
           [(1, 2, 3)%float; (nan, 0, 0)%float; (4, 5, 6)%float]
           [(10, 20, 30)%Z; (10, 20, 30)%Z; (10, 20, 30)%Z]
           (nan, 0, 0)%float eq_refl (or_intror (or_introl eq_refl)) eq_refl).
Defined.

(** ** More on the control loop *)

(** Destructure the tuples a continuation matches on. *)
Ltac open_tuples H :=
  repeat match type of H with
         | context [match ?x with pair _ _ => _ end] => destruct x
         end.

Section LoopMore.

Context {F : Type} {D : Dtype F} (cv : CV F).

Lemma ravel33_length (m : mat33 F) : List.length (ravel33 m) = 9%nat.
Proof. destruct m as [[[[a0 a1] a2] [[b0 b1] b2]] [[c0 c1] c2]]. reflexivity. Qed.

(** X12.  The pose history is the flattened intrinsics followed by one
    flattened 3x4 projection matrix per completed iteration: after [n]
    iterations from the state the notebook starts the loop with, it has
    9 + 12 n entries and still begins with the 9 entries of K. *)
Theorem pose_array_layout (image_paths : list string) (Km : mat33 F)
    (tv : two_view) (n : nat) (st : state) (out out' : stdout F) :
  iterate image_paths Km n (initial_state Km tv) out = (inr st, out') ->
  List.length (pose_array st) = (9 + 12 * n)%nat /\
  firstn 9 (pose_array st) = ravel33 Km.
Proof.
  intros H.
  destruct (@iterate_prefix F D cv image_paths Km 0 n _ _ _ _ H)
    as (st0 & out0 & poses & points & H0 & Hp & _).
  unfold iterate in H0. simpl in H0. unfold mret in H0. injection H0 as <- <-.
  simpl in Hp. split.
  - clear Hp poses points. revert st out' H.
    induction n as [| n IH]; intros st out' H.
    + unfold iterate in H. simpl in H. unfold mret in H. injection H as <- _.
      simpl. apply ravel33_length.
    + rewrite iterate_succ in H.
      apply mbind_inr in H as (st1 & out1 & Hn & Hbody).
      apply loop_body_appends in Hbody as (pose_2 & pts & cols & Hpa & _).
      rewrite Hpa, length_app, ravel34_length, (IH _ _ Hn). lia.
  - rewrite Hp.
    destruct Km as [[[[a0 a1] a2] [[b0 b1] b2]] [[c0 c1] c2]]. reflexivity.
Qed.

Lemma map_res_length {A B} (f : A -> res B) (ls : list A) (bs : list B) :
  map_res f ls = inr bs -> List.length bs = List.length ls.
Proof.
  revert bs. induction ls as [| l rest IH]; simpl; intros bs H.
  - injection H as <-. reflexivity.
  - do 2 step_in H. injection H as <-. simpl. f_equal. apply IH. assumption.
Qed.

Lemma reprojection_error_points (obj_points : obj_points_arg)
    (image_points : list (pt2 F)) (T : mat34 F) (Km : mat33 F) e pts :
  reprojection_error obj_points image_points T Km = inr (e, pts) ->
  cartesian_points obj_points = inr pts.
Proof.
  unfold reprojection_error. intros H. do 4 step_in H.
  destruct (List.length a1); [discriminate |]. injection H as _ <-.
  assumption.
Qed.

Section Contract.

(** What the loop relies on from OpenCV: the Cartesian conversion keeps
    the number of points, and triangulation returns one solution per
    correspondence. *)
Hypothesis convert_length :
  forall pts conv,
    convertPointsFromHomogeneous pts = inr conv ->
    List.length conv = List.length pts.
Hypothesis triangulate_length :
  forall P1 P2 a b cloud,
    triangulatePoints P1 P2 a b = inr cloud ->
    List.length cloud = List.length b.

Lemma triangulation_length (P1 P2 : mat34 F) (a b a' b' : list (pt2 F)) pts :
  triangulation P1 P2 a b = inr (a', b', pts) ->
  b' = b /\ List.length pts = List.length b.
Proof.
  unfold triangulation. intros H. step_in H. injection H as _ <- <-.
  split; [reflexivity |]. rewrite length_map. eapply triangulate_length.
  eassumption.
Qed.

Lemma loop_body_parallel (image_paths : list string) (Km : mat33 F)
    (st st' : state) (i : nat) (out out' : stdout F) :
  loop_body image_paths Km st i out = (inr st', out') ->
  exists new_points new_colors,
    total_points st' = total_points st ++ new_points /\
    total_colors st' = total_colors st ++ new_colors /\
    List.length new_points = List.length new_colors /\
    new_colors <> [].
Proof.
  intros H. unfold loop_body in H.
  do 21 (step_in H; open_tuples H).
  unfold mret in H. injection H as Hst _. subst st'.
  cbn [total_points total_colors].
  repeat match goal with
         | Hl : lift _ _ = (inr _, _) |- _ => apply lift_inr in Hl as [Hl _]
         end.
  match goal with
  | Hv : vstack_colors _ ?cvec = inr _ |- _ =>
      unfold vstack_colors in Hv;
      destruct cvec as [| c cs] eqn:Ecv; [discriminate |]; injection Hv as <-
  end.
  match goal with
  | Hm : map_res _ ?m1 = inr _ |- _ => apply map_res_length in Hm
  end.
  match goal with
  | Hr : reprojection_error (Homogeneous _) _ _ _ = inr _ |- _ =>
      apply reprojection_error_points in Hr; simpl in Hr;
      apply convert_length in Hr
  end.
  match goal with
  | Ht : triangulation (pose_1 st) (matmul _ _) _ _ = inr _ |- _ =>
      apply triangulation_length in Ht as [-> Ht]
  end.
  eexists. exists (c :: cs). repeat split; [| discriminate].
  match goal with
  | H1 : List.length ?p = List.length ?q,
    H2 : List.length ?q = List.length ?r,
    H3 : List.length (c :: cs) = List.length ?r |- List.length ?p = _ =>
      rewrite H1, H2; symmetry; exact H3
  end.
Qed.

Lemma iterate_parallel (image_paths : list string) (Km : mat33 F) (n : nat)
    (st st' : state) (out out' : stdout F) :
  List.length (total_points st) = List.length (total_colors st) ->
  iterate image_paths Km n st out = (inr st', out') ->
  List.length (total_points st') = List.length (total_colors st') /\
  (List.length (total_points st) + n <= List.length (total_points st'))%nat.
Proof.
  intros Hpar. revert st' out'. induction n as [| n IH]; intros st' out' H.
  - unfold iterate in H. simpl in H. unfold mret in H. injection H as <- _.
    split; [exact Hpar | lia].
  - rewrite iterate_succ in H.
    apply mbind_inr in H as (st1 & out1 & Hn & Hbody).
    destruct (IH _ _ Hn) as [Hp1 Hg1].
    apply loop_body_parallel in Hbody
      as (pts & cols & -> & -> & Hl & Hne).
    rewrite !length_app. split; [lia |].
    destruct cols; [congruence | simpl in *; lia].
Qed.

Lemma initialise_parallel (image_paths : list string) (Km : mat33 F)
    (out out' : stdout F) (tv : two_view) :
  initialise image_paths Km out = (inr tv, out') ->
  List.length (tv_points_3d tv) = List.length (tv_color_b tv).
Proof.
  intros H. unfold initialise in H.
  do 16 (step_in H; open_tuples H).
  unfold mret in H. injection H as Htv _. subst tv.
  cbn [tv_points_3d tv_color_b].
  repeat match goal with
         | Hl : lift _ _ = (inr _, _) |- _ => apply lift_inr in Hl as [Hl _]
         end.
  repeat match goal with
         | Hb : bool_index _ _ = inr _ |- _ =>
             apply bool_index_select in Hb as [-> Hb]
         end.
  match goal with
  | Hc : convertPointsFromHomogeneous _ = inr _ |- _ =>
      apply convert_length in Hc; rewrite Hc
  end.
  match goal with
  | Ht : triangulation _ _ _ _ = inr _ |- _ =>
      apply triangulation_length in Ht as [_ ->]
  end.
  apply select_twice_length; congruence.
Qed.

(** X13.  If the Cartesian conversion keeps the number of points and
    triangulation returns one solution per correspondence, the points and
    colours the pipeline accumulates stay parallel: after the two-view
    initialisation and any number of completed iterations there are as
    many colours as points, every iteration has added at least one point,
    and the exporter does not raise on the accumulated arrays. *)
Theorem pipeline_keeps_points_and_colours_parallel
    (image_paths : list string) (Km : mat33 F) (n : nat) (path : string)
    (tv : two_view) (st : state) (out out1 out2 : stdout F) :
  initialise image_paths Km out = (inr tv, out1) ->
  iterate image_paths Km n (initial_state Km tv) out1 = (inr st, out2) ->
  List.length (total_points st) = List.length (total_colors st) /\
  (List.length (tv_points_3d tv) + n <= List.length (total_points st))%nat /\
  exists f, to_ply path (total_points st) (total_colors st) = inr f.
Proof.
  intros Hinit Hloop.
  pose proof (initialise_parallel _ _ _ Hinit) as H0.
  apply iterate_parallel in Hloop as [Hpar Hgrow]; [| exact H0].
  cbn [initial_state total_points] in Hgrow.
  split; [exact Hpar |]. split; [exact Hgrow |].
  destruct (retained_select (total_points st) (total_colors st) Hpar)
    as [_ Hret].
  unfold to_ply. rewrite Hret. simpl. eauto.
Qed.

End Contract.

End LoopMore.

(** The whole pipeline runs on the scripted OpenCV, with and without the
    check of the point counts. *)
Lemma scripted_pipeline_runs :
  exists tv out1 st out2,
    initialise (cv := scripted (fun _ => true) 1%float) image_paths K [] =
      (inr tv, out1) /\
    iterate (cv := scripted (fun _ => true) 1%float) image_paths K 2
      (initial_state K tv) out1 = (inr st, out2).
Proof. vm_compute. do 4 eexists. split; reflexivity. Qed.

Lemma checked_pipeline_runs :
  exists tv out1 st out2,
    initialise (cv := checked (scripted (fun _ => true) 1%float))
      image_paths K [] = (inr tv, out1) /\
    iterate (cv := checked (scripted (fun _ => true) 1%float))
      image_paths K 6 (initial_state K tv) out1 = (inr st, out2).
Proof. vm_compute. do 4 eexists. split; reflexivity. Qed.

Lemma checked_convert_length (pts : list (vec4 float)) (conv : list (vec3 float)) :
  convertPointsFromHomogeneous
    (CV := checked (scripted (fun _ => true) 1%float)) pts = inr conv ->
  List.length conv = List.length pts.
Proof. simpl. intros H. injection H as <-. apply length_map. Qed.

Lemma checked_triangulate_length (P1 P2 : mat34 float)
    (a b : list (pt2 float)) (cloud : list (vec4 float)) :
  triangulatePoints
    (CV := checked (scripted (fun _ => true) 1%float)) P1 P2 a b = inr cloud ->
  List.length cloud = List.length b.
Proof.
  simpl. destruct (Nat.eqb_spec (List.length a) (List.length b)) as [E | E];
    [| discriminate].
  intros H. injection H as <-. rewrite length_map, length_combine. lia.
Qed.

Lemma pose_array_layout_witness :
  exists st : state (F := float),
    List.length (pose_array st) = (9 + 12 * 2)%nat /\
    firstn 9 (pose_array st) = ravel33 K.
Proof.
  destruct scripted_pipeline_runs as (tv & out1 & st & out2 & _ & H).
  exists st.
  exact (@pose_array_layout float float64 _ image_paths K tv 2 st out1 out2 H).
Defined.

Lemma pipeline_keeps_points_and_colours_parallel_witness :
  exists (tv : two_view (F := float)) (st : state (F := float)),
    List.length (total_points st) = List.length (total_colors st) /\
    (List.length (tv_points_3d tv) + 6 <= List.length (total_points st))%nat /\
    exists f, to_ply "./Assets" (total_points st) (total_colors st) = inr f.
Proof.
  destruct checked_pipeline_runs as (tv & out1 & st & out2 & Hi & Hl).
  exists tv, st.
  exact (@pipeline_keeps_points_and_colours_parallel float float64
           (checked (scripted (fun _ => true) 1%float))
           checked_convert_length checked_triangulate_length
           image_paths K 6 "./Assets" tv st [] out1 out2 Hi Hl).
Defined.

Section LoopEdge.

Context {F : Type} {D : Dtype F} (cv : CV F).

Lemma common_loop_no_track (pts1 pts2 : list (pt2 F)) i :
  (forall p q, In p pts1 -> In q pts2 -> shares_coordinate p q = false) ->
  common_loop pts1 pts2 i [] [] = ([], []).
Proof.
  revert i. induction pts1 as [| p rest IH]; intros i H; simpl; [reflexivity |].
  assert (Hw : where_rows pts2 p 0 = []).
  { apply where_rows_nil. apply forallb_forall. intros q Hq.
    rewrite (H p q); simpl; auto. }
  rewrite Hw. apply IH. intros p' q Hp Hq. apply H; simpl; auto.
Qed.

Lemma mask_rows_nil {A} (arr : list A) : mask_rows arr [] = inr arr.
Proof.
  rewrite mask_rows_in_range by constructor. f_equal.
  unfold select. simpl.
  generalize 0%nat. induction arr as [| a arr IH]; intros s; simpl;
    [reflexivity |].
  f_equal. apply IH.
Qed.

(** X14.  An iteration in which no key point of the middle image is
    tracked (no row of the first pair's second array shares a coordinate
    with a row of the second pair's first array) does not complete.  When
    the second pair has no good match at all while the first pair has
    one, the tracker raises ValueError at its first comparison and
    nothing is printed; otherwise the tracker prints the shapes of the
    untouched arrays, and indexing with the empty index array raises
    IndexError. *)
Theorem loop_body_without_track (image_paths : list string) (Km : mat33 F)
    (st : state) (i : nat) (out : stdout F)
    path_0 path_1 path_2 f0 f1 ca cb f0' f1' cloud cur nxt cc cn pts :
  nth_error image_paths i = Some path_0 ->
  nth_error image_paths (i + 1) = Some path_1 ->
  nth_error image_paths (i + 2) = Some path_2 ->
  get_matches path_0 path_1 out = (inr (Some (f0, f1, ca, cb)), out) ->
  triangulation (pose_0 st) (pose_1 st) f0 f1 = inr (f0', f1', cloud) ->
  get_matches path_1 path_2 out = (inr (Some (cur, nxt, cc, cn)), out) ->
  convertPointsFromHomogeneous cloud = inr pts ->
  (forall p q, In p f1' -> In q cur -> shares_coordinate p q = false) ->
  loop_body image_paths Km st i out =
  match f1', cur with
  | _ :: _, [] => (inl ValueError, out)
  | _, _ =>
      (inl IndexError,
       out ++ [[PStr " Shape New Array";
                PShape (List.length cur) 2; PShape (List.length nxt) 2]])
  end.
Proof.
  intros H0 H1 H2 Hg1 Htri Hg2 Hconv Hno.
  unfold loop_body, mbind, lift, list_get.
  rewrite H1, H0, Hg1. cbn [unpack mret]. rewrite Htri, H2, Hg2.
  cbn [unpack mret]. rewrite Hconv.
  destruct f1' as [| p1 f1']; [| destruct cur as [| q1 cur]];
    cbn [broadcast_rows]; try reflexivity.
  - unfold common_points. rewrite (common_loop_no_track _ _ _ Hno).
    unfold mbind, lift, print, mret. rewrite !mask_rows_nil. reflexivity.
  - unfold common_points. rewrite (common_loop_no_track _ _ _ Hno).
    unfold mbind, lift, print, mret. rewrite !mask_rows_nil. reflexivity.
Qed.

End LoopEdge.

Lemma loop_body_without_track_witness :
  loop_body (cv := untracked) image_paths K scripted_start 0 [] =
    (inl IndexError, [[PStr " Shape New Array"; PShape 1 2; PShape 1 2]]) /\
  loop_body (cv := unmatched) image_paths K scripted_start 0 [] =
    (inl ValueError, []).
Proof.
  split.
  - refine (@loop_body_without_track float float64 untracked image_paths K
              scripted_start 0 [] "./Assets/0000.jpg" "./Assets/0001.jpg"
              "./Assets/0002.jpg" [(2, 5)%float] [(3, 7)%float]
              [(10, 20, 30)%Z] [(10, 20, 30)%Z] [(2, 5)%float] [(3, 7)%float]
              [(2, 5, 1, 1)%float] [(2, 5)%float] [(3, 7)%float]
              [(10, 20, 30)%Z] [(10, 20, 30)%Z] [(2, 5, 1)%float]
              eq_refl eq_refl eq_refl _ _ _ _ _).
    + vm_compute. reflexivity.
    + vm_compute. reflexivity.
    + vm_compute. reflexivity.
    + vm_compute. reflexivity.
    + intros p q [<- | []] [<- | []]. vm_compute. reflexivity.
  - refine (@loop_body_without_track float float64 unmatched image_paths K
              scripted_start 0 [] "./Assets/0000.jpg" "./Assets/0001.jpg"
              "./Assets/0002.jpg"
              [(1, 1)%float; (2, 5)%float] [(1, 1)%float; (3, 7)%float]
              [(10, 20, 30)%Z; (10, 20, 30)%Z] [(10, 20, 30)%Z; (10, 20, 30)%Z]
              [(1, 1)%float; (2, 5)%float] [(1, 1)%float; (3, 7)%float]
              [(1, 1, 1, 1)%float; (2, 5, 1, 1)%float] [] [] [] []
              [(1, 1, 1)%float; (2, 5, 1)%float]
              eq_refl eq_refl eq_refl _ _ _ _ _).
    + vm_compute. reflexivity.
    + vm_compute. reflexivity.
    + vm_compute. reflexivity.
    + vm_compute. reflexivity.
    + intros p q _ [].
Defined.

Section ExportTranslation.

Local Open Scope R_scope.

Lemma Rsum_shift (c : R) (l : list R) :
  Rsum (map (fun x => x + c) l) = Rsum l + INR (List.length l) * c.
Proof.
  induction l as [| x l IH]; [simpl; lra |].
  cbn [map List.length]. rewrite S_INR. unfold Rsum in *. cbn [fold_right].
  rewrite IH. lra.
Qed.

Lemma np_mean_shift (c : R) (l : list R) :
  l <> [] -> np_mean (map (fun x => x + c) l) = np_mean l + c.
Proof.
  intros Hne. rewrite !np_mean_real, Rsum_shift, length_map.
  assert (INR (List.length l) <> 0).
  { apply not_0_INR. destruct l; [congruence | discriminate]. }
  field. assumption.
Qed.

Lemma mean_axis0_shift (T : vec3 R) (pts : list (vec3 R)) :
  pts <> [] ->
  mean_axis0 (map (fun q => vadd q T) pts) = vadd (mean_axis0 pts) T.
Proof.
  intros Hne. destruct T as [[tx ty] tz]. unfold mean_axis0.
  rewrite !map_map.
  rewrite (map_ext (fun q => fst (fst (vadd q (tx, ty, tz))))
                   (fun q => fst (fst q) + tx))
    by (intros [[x y] z]; reflexivity).
  rewrite (map_ext (fun q => snd (fst (vadd q (tx, ty, tz))))
                   (fun q => snd (fst q) + ty))
    by (intros [[x y] z]; reflexivity).
  rewrite (map_ext (fun q => snd (vadd q (tx, ty, tz)))
                   (fun q => snd q + tz))
    by (intros [[x y] z]; reflexivity).
  rewrite <- (map_map (fun q : vec3 R => fst (fst q)) (fun x => x + tx)).
  rewrite <- (map_map (fun q : vec3 R => snd (fst q)) (fun x => x + ty)).
  rewrite <- (map_map (fun q : vec3 R => snd q) (fun x => x + tz)).
  assert (forall (g : vec3 R -> R), map g pts <> []).
  { intros g Hn. apply map_eq_nil in Hn. contradiction. }
  rewrite !np_mean_shift by auto. reflexivity.
Qed.

Lemma sub_shift (x t m : R) : x + t - (m + t) = x - m.
Proof. ring. Qed.

Lemma mul_shift (x t c : R) : (x + t) * c = x * c + t * c.
Proof. ring. Qed.

Lemma centre_shift (m T q : vec3 R) :
  centre (vadd m T) (vadd q T) = centre m q.
Proof.
  destruct m as [[mx my] mz], T as [[tx ty] tz], q as [[x y] z].
  unfold centre, vadd. cbn [fadd fsub real]. rewrite !sub_shift. reflexivity.
Qed.

Lemma scale200_shift (t p : vec3 R) :
  scale200 (vadd p t) = vadd (scale200 p) (scale200 t).
Proof.
  destruct t as [[tx ty] tz], p as [[x y] z].
  unfold scale200, vadd. cbn [fadd fmul real]. rewrite !mul_shift. reflexivity.
Qed.

(** The rows of [verts] for a translated cloud. *)
Lemma verts_shift (t : vec3 R) (point_cloud : list (vec3 R))
    (colors : list color) :
  map hstack_row
      (combine (out_points (map (fun p => vadd p t) point_cloud))
               (out_colors colors)) =
  map (fun v : vert => (vadd (fst v) (scale200 t), snd v))
      (map hstack_row (combine (out_points point_cloud) (out_colors colors))).
Proof.
  unfold out_points. generalize (out_colors colors) as cs.
  induction point_cloud as [| p pc IH]; intros [| c cs]; simpl;
    try reflexivity.
  rewrite IH. f_equal. unfold hstack_row. simpl.
  destruct c as [[c0 c1] c2]. rewrite scale200_shift. reflexivity.
Qed.

Lemma distances_shift (T : vec3 R) (verts : list (vert (F := R))) :
  distances (map (fun v : vert => (vadd (fst v) T, snd v)) verts) =
  distances verts.
Proof.
  destruct verts as [| v0 verts0] eqn:Ev; [reflexivity |].
  rewrite <- Ev.
  assert (Hfst : map fst (map (fun v : vert => (vadd (fst v) T, snd v)) verts) =
                 map (fun q => vadd q T) (map fst verts)).
  { rewrite !map_map. reflexivity. }
  assert (Hne : map fst verts <> []) by (rewrite Ev; discriminate).
  unfold distances. rewrite Hfst, (mean_axis0_shift _ Hne), map_map.
  apply map_ext. intros v. cbn [fst]. rewrite centre_shift. reflexivity.
Qed.

(** X16.  In real arithmetic, which points the exporter keeps does not
    depend on where the cloud sits: translating every point by the same
    vector keeps the same rows, and the lines written are those of the
    original cloud with their coordinates moved by 200 times the vector. *)
Theorem to_ply_translation (path : string) (t : vec3 R)
    (point_cloud : list (vec3 R)) (colors : list color) (f : ply_file) :
  to_ply path point_cloud colors = inr f ->
  to_ply path (map (fun p => vadd p t) point_cloud) colors =
  inr {| file_name := file_name f;
         header := header f;
         data_lines := map (fun l : ply_line =>
                              (vadd (fst l) (scale200 t), snd l))
                           (data_lines f) |}.
Proof.
  intros H. unfold to_ply in H. apply rbind_inr in H as (verts & Hret & H).
  injection H as <-. cbn [file_name header data_lines].
  pose proof (retained_inr _ _ Hret) as Hlen.
  destruct (retained_select point_cloud colors Hlen) as [_ Hsel].
  rewrite Hsel in Hret. injection Hret as <-.
  assert (Hlen' : List.length (map (fun p => vadd p t) point_cloud) =
                  List.length colors) by (rewrite length_map; exact Hlen).
  destruct (retained_select _ colors Hlen') as [_ Hsel'].
  unfold to_ply. rewrite Hsel'. cbn [rbind].
  rewrite verts_shift, distances_shift, select_map.
  rewrite !length_map, !map_map. do 2 f_equal.
  apply map_ext. intros [p [[c0 c1] c2]]. reflexivity.
Qed.

Lemma to_ply_translation_witness :
  exists f,
    to_ply "./Assets" [(0, 0, 0); (1, 0, 0)] [(1, 2, 3)%Z; (4, 5, 6)%Z] =
      inr f /\
    to_ply "./Assets" (map (fun p => vadd p (5, 6, 7)) [(0, 0, 0); (1, 0, 0)])
      [(1, 2, 3)%Z; (4, 5, 6)%Z] =
    inr {| file_name := file_name f;
           header := header f;
           data_lines := map (fun l : ply_line =>
                                (vadd (fst l) (scale200 (5, 6, 7)), snd l))
                             (data_lines f) |}.
Proof.
  destruct (@retained_select R real [(0, 0, 0); (1, 0, 0)]
              [(1, 2, 3)%Z; (4, 5, 6)%Z] eq_refl) as [_ Hret].
  eexists. split.
  - unfold to_ply. rewrite Hret. reflexivity.
  - apply to_ply_translation. unfold to_ply. rewrite Hret. reflexivity.
Defined.

End ExportTranslation.

Lemma scripted_control_loop_runs :
  exists st2 out2,
    control_loop (cv := scripted (fun _ => true) 1%float) image_paths K
      scripted_start [] = (inr st2, out2).
Proof. vm_compute. do 2 eexists. reflexivity. Qed.

Lemma control_loop_prefix_witness :
  exists (st2 st1 : state (F := float)) out1 poses points,
    iterate (cv := scripted (fun _ => true) 1%float) image_paths K 3
      scripted_start [] = (inr st1, out1) /\
    pose_array st2 = pose_array st1 ++ poses /\
    total_points st2 = total_points st1 ++ points.
Proof.
  destruct scripted_control_loop_runs as (st2 & out2 & H).
  exists st2.
  refine (@control_loop_prefix float float64 _ image_paths K 3
            scripted_start st2 [] out2 _ H).
  vm_compute. lia.
Defined.

Section RealBounds.

Local Open Scope R_scope.

(** The square of a sum of [n] terms is at most [n] times the sum of the
    squares. *)
Lemma Rsum_square_le (ds : list R) :
  Rsum ds * Rsum ds <=
  INR (List.length ds) * Rsum (map (fun d => d * d) ds).
Proof.
  induction ds as [| d ds IH].
  - simpl. lra.
  - cbn [List.length map]. rewrite S_INR.
    change (Rsum (d :: ds)) with (d + Rsum ds).
    change (Rsum (d * d :: map (fun d => d * d) ds))
      with (d * d + Rsum (map (fun d => d * d) ds)).
    set (S := Rsum ds) in *. set (Q := Rsum (map (fun d => d * d) ds)) in *.
    set (n := INR (List.length ds)) in *.
    assert (Hn : 0 <= n) by apply pos_INR.
    assert (Hq : 0 <= Q).
    { apply Rsum_nonneg. apply Forall_forall. intros x Hx.
      apply in_map_iff in Hx as (y & <- & _). apply Rle_0_sqr. }
    destruct (Req_dec n 0) as [Hz | Hnz].
    + rewrite Hz in *. assert (S = 0) by nra. subst S. nra.
    + assert (Hpos : 0 < n) by lra.
      assert (H2 : 2 * n * d * S <= n * n * d * d + n * Q).
      { pose proof (Rle_0_sqr (n * d - S)) as Hs. unfold Rsqr in Hs. nra. }
      assert (H3 : 2 * d * S <= n * d * d + Q).
      { apply (Rmult_le_reg_l n); [exact Hpos |]. nra. }
      nra.
Qed.

(** X18.  In real arithmetic, for N >= 1 points with as many
    observations, the value the evaluator returns lies between the mean
    of the per-point distances divided by the square root of N and that
    mean. *)
Theorem reprojection_error_bounds (cv : CV R)
    (obj_points : obj_points_arg) (image_points : list (pt2 R))
    (transform_matrix : mat34 R) (Km : mat33 R)
    rot_vector obj_points' image_points_calc :
  RodriguesMat (sub33 transform_matrix) = inr rot_vector ->
  cartesian_points obj_points = inr obj_points' ->
  projectPoints obj_points' rot_vector (col3 transform_matrix) Km =
    inr image_points_calc ->
  List.length image_points_calc = List.length image_points ->
  image_points_calc <> [] ->
  exists e,
    reprojection_error obj_points image_points transform_matrix Km =
      inr (e, obj_points') /\
    mean_distance image_points_calc image_points /
      R_sqrt.sqrt (INR (List.length image_points_calc)) <= e /\
    e <= mean_distance image_points_calc image_points.
Proof.
  intros Hrod Hobj Hproj Hlen Hne.
  eexists. split; [eapply reprojection_error_value; eassumption |].
  set (ds := map distance2 (combine image_points_calc image_points)).
  assert (Hds : Forall (fun d => 0 <= d) ds).
  { apply Forall_forall. intros d Hd. apply in_map_iff in Hd.
    destruct Hd as (pq & <- & _). apply distance2_nonneg. }
  assert (Hn : List.length ds = List.length image_points_calc).
  { unfold ds. rewrite length_map, length_combine. lia. }
  assert (Hpos : 0 < INR (List.length image_points_calc)).
  { apply lt_0_INR. destruct image_points_calc; [congruence | simpl; lia]. }
  assert (Hmean : mean_distance image_points_calc image_points =
                  Rsum ds / INR (List.length image_points_calc)).
  { unfold mean_distance. rewrite np_mean_real. fold ds. rewrite Hn.
    reflexivity. }
  assert (Hsq : map (fun pq => distance2 pq * distance2 pq)
                    (combine image_points_calc image_points) =
                map (fun d => d * d) ds).
  { unfold ds. rewrite map_map. reflexivity. }
  rewrite Hsq, Hmean. set (N := INR (List.length image_points_calc)) in *.
  set (Q := Rsum (map (fun d => d * d) ds)).
  assert (Hq : 0 <= Q).
  { apply Rsum_nonneg. apply Forall_forall. intros x Hx.
    apply in_map_iff in Hx as (y & <- & _). apply Rle_0_sqr. }
  assert (Hsum : 0 <= Rsum ds) by (apply Rsum_nonneg; exact Hds).
  assert (HsN : 0 < R_sqrt.sqrt N) by (apply sqrt_lt_R0; exact Hpos).
  split.
  - (* Rsum ds <= sqrt N * sqrt Q *)
    assert (Hcs : Rsum ds <= R_sqrt.sqrt N * R_sqrt.sqrt Q).
    { rewrite <- sqrt_mult by lra.
      rewrite <- (sqrt_square (Rsum ds)) by exact Hsum.
      apply sqrt_le_1_alt. pose proof (Rsum_square_le ds) as Hc.
      rewrite Hn in Hc. exact Hc. }
    unfold Rdiv. apply (Rmult_le_reg_r (N * R_sqrt.sqrt N)).
    { apply Rmult_lt_0_compat; assumption. }
    replace (Rsum ds * / N * / R_sqrt.sqrt N * (N * R_sqrt.sqrt N))
      with (Rsum ds) by (field; split; lra).
    replace (R_sqrt.sqrt Q * / N * (N * R_sqrt.sqrt N))
      with (R_sqrt.sqrt N * R_sqrt.sqrt Q) by (field; lra).
    exact Hcs.
  - unfold Rdiv. apply Rmult_le_compat_r.
    + left. apply Rinv_0_lt_compat. exact Hpos.
    + apply norm_le_sum. exact Hds.
Qed.

Lemma reprojection_error_bounds_witness :
  exists e,
    reprojection_error (cv := scripted (fun _ => true) 1)
      (Cartesian [(3, 0, 1); (4, 0, 1)]) [(0, 0); (0, 0)]
      transform_matrix_0 K = inr (e, [(3, 0, 1); (4, 0, 1)]) /\
    mean_distance [(3, 0); (4, 0)] [(0, 0); (0, 0)] / R_sqrt.sqrt (INR 2) <= e /\
    e <= mean_distance [(3, 0); (4, 0)] [(0, 0); (0, 0)].
Proof.
  refine (@reprojection_error_bounds
            (scripted (fun _ => true) 1)
            (Cartesian [(3, 0, 1); (4, 0, 1)]) [(0, 0); (0, 0)]
            transform_matrix_0 K (0, 0, 0) [(3, 0, 1); (4, 0, 1)]
            [(3, 0); (4, 0)] eq_refl eq_refl eq_refl eq_refl _).
  discriminate.
Defined.

End RealBounds.

Section InitialiseTotal.

Context {F : Type} {D : Dtype F} (cv : CV F).

Lemma select_parallel_length {A B} (a : list A) (b : list B) mask :
  List.length a = List.length b -> List.length a = List.length mask ->
  List.length (select b mask) = List.length (select a mask).
Proof. intros Hab Ha. apply select_length; congruence. Qed.

(** X19.  The two-view initialisation completes, with nothing printed,
    whenever both images are read and matched, the essential-matrix mask
    has one entry per match, the pose-recovery mask one entry per
    essential-matrix inlier, and triangulation and conversion of the
    doubly filtered correspondences return: the boolean indexing of the
    cell does not raise then, and the cell returns the recovered rotation
    and translation and the converted points. *)
Theorem initialise_completes (image_paths : list string) (Km : mat33 F)
    (out : stdout F) path0 path1 f0 f1 ca cb E mask1 rot tran mask2 cloud pts :
  nth_error image_paths 0 = Some path0 ->
  nth_error image_paths 1 = Some path1 ->
  get_matches path0 path1 out = (inr (Some (f0, f1, ca, cb)), out) ->
  findEssentialMat f0 f1 Km = inr (E, mask1) ->
  List.length mask1 = List.length f0 ->
  recoverPose E (select f0 (map (Z.eqb 1) mask1))
                (select f1 (map (Z.eqb 1) mask1)) Km =
    inr (rot, tran, mask2) ->
  List.length mask2 = List.length (select f0 (map (Z.eqb 1) mask1)) ->
  triangulatePoints
    (matmul Km transform_matrix_0)
    (matmul Km (hstack (matmul33 rot (sub33 transform_matrix_0))
                       (vadd (col3 transform_matrix_0)
                             (matvec (sub33 transform_matrix_0) tran))))
    (select (select f0 (map (Z.eqb 1) mask1)) (map (Z.ltb 0) mask2))
    (select (select f1 (map (Z.eqb 1) mask1)) (map (Z.ltb 0) mask2)) =
    inr cloud ->
  convertPointsFromHomogeneous (map normalise cloud) = inr pts ->
  exists tv,
    initialise image_paths Km out = (inr tv, out) /\
    tv_rot_matrix tv = rot /\ tv_tran_matrix tv = tran /\
    tv_points_3d tv = pts /\
    tv_color_b tv =
      select (select cb (map (Z.eqb 1) mask1)) (map (Z.ltb 0) mask2).
Proof.
  intros N0 N1 Hgm Hess L1 Hrec L2 Htri Hconv.
  destruct (get_matches_parallel _ _ _ _ Hgm) as [(P1 & P2 & P3) _].
  set (keep1 := map (Z.eqb 1) mask1) in *.
  set (keep2 := map (Z.ltb 0) mask2) in *.
  assert (K1 : List.length f0 = List.length keep1)
    by (unfold keep1; rewrite length_map; congruence).
  assert (K2 : List.length (select f0 keep1) = List.length keep2)
    by (unfold keep2; rewrite length_map; congruence).
  assert (S1 : List.length (select f1 keep1) = List.length keep2).
  { rewrite <- K2. apply select_parallel_length; congruence. }
  assert (S2 : List.length (select ca keep1) = List.length keep2).
  { rewrite <- K2. apply select_parallel_length; congruence. }
  assert (S3 : List.length (select cb keep1) = List.length keep2).
  { rewrite <- K2. apply select_parallel_length; congruence. }
  eexists. split.
  - unfold initialise, mbind, lift, list_get.
    rewrite N0, N1, Hgm. cbn [unpack mret]. rewrite Hess.
    fold keep1.
    rewrite (bool_index_total f0 keep1) by congruence.
    rewrite (bool_index_total f1 keep1) by congruence.
    rewrite (bool_index_total ca keep1) by congruence.
    rewrite (bool_index_total cb keep1) by congruence.
    rewrite Hrec. fold keep2.
    rewrite (bool_index_total _ keep2 K2), (bool_index_total _ keep2 S1),
      (bool_index_total _ keep2 S2), (bool_index_total _ keep2 S3).
    unfold triangulation, rbind. rewrite Htri, Hconv. reflexivity.
  - repeat split.
Qed.

End InitialiseTotal.

Lemma initialise_completes_witness :
  exists tv : two_view (F := float),
    initialise (cv := scripted (fun _ => true) 1%float) image_paths K [] =
      (inr tv, []) /\
    tv_rot_matrix tv = eye3 /\ tv_tran_matrix tv = (0, 0, 1)%float /\
    tv_points_3d tv = [(1, 1, 1); (2, 5, 1)]%float /\
    tv_color_b tv =
      select (select [(10, 20, 30); (10, 20, 30)]%Z (map (Z.eqb 1) [1; 1]%Z))
             (map (Z.ltb 0) [255; 255]%Z).
Proof.
  refine (@initialise_completes float float64
            (scripted (fun _ => true) 1%float) image_paths K []
            "./Assets/0000.jpg" "./Assets/0001.jpg"
            [(1, 1); (2, 5)]%float [(1, 1); (3, 7)]%float
            [(10, 20, 30); (10, 20, 30)]%Z [(10, 20, 30); (10, 20, 30)]%Z
            eye3 [1; 1]%Z eye3 (0, 0, 1)%float [255; 255]%Z
            [(1, 1, 1, 1); (2, 5, 1, 1)]%float [(1, 1, 1); (2, 5, 1)]%float
            eq_refl eq_refl _ _ eq_refl _ eq_refl _ _);
    vm_compute; reflexivity.
Defined.
